(** * transitfit: the inference engine of the transit fitter

    A shallow embedding of [transitfit/fitter.py] ([TransitModel]) and
    [transitfit/lightcurve.py] ([Planet], [LightCurve]).

    Numbers.  The program computes on numpy [float64] values.  They are
    modelled as extended reals ([np_float]): arithmetic on finite values is
    exact (no rounding, no overflow, no signed zero), and the special
    values [inf], [-inf] and [nan] follow the IEEE rules numpy applies.

    Effects.  Methods run in a state-and-exception monad over a [world]
    holding the file system (the HDF stores) and a log of the calls that
    the properties below count: entries into [lnlike], calls of the
    external transit model [lc_eval], derivations of the sample table. *)

From Stdlib Require Import Reals Lra Lia String List Bool Arith.
From stdpp Require Import gmap strings list fin_maps pretty.

Local Open Scope string_scope.

(** ** Python exceptions and results *)

Inductive exn : Type :=
| ValueError
| IndexError
| AttributeError
| IOError
| KeyError
| InvalidParameterError
| RuntimeError.  (* maximum recursion depth exceeded *)

Inductive result (A : Type) : Type :=
| Ok (a : A)
| Raise (e : exn).
Arguments Ok {A} a.
Arguments Raise {A} e.

Definition exn_eqb (a b : exn) : bool :=
  match a, b with
  | ValueError, ValueError | IndexError, IndexError
  | AttributeError, AttributeError | IOError, IOError
  | KeyError, KeyError | InvalidParameterError, InvalidParameterError
  | RuntimeError, RuntimeError => true
  | _, _ => false
  end.

Definition rbind {A B} (r : result A) (k : A -> result B) : result B :=
  match r with
  | Ok a => k a
  | Raise e => Raise e
  end.

(** ** numpy float64 as extended reals *)

Module Np.

Inductive np_float : Type :=
| Finite (r : R)
| PInf
| NInf
| NaN.

Definition Rleb (x y : R) : bool := if Rle_dec x y then true else false.
Definition Rltb (x y : R) : bool := if Rlt_dec x y then true else false.
Definition Reqb (x y : R) : bool := if Req_dec_T x y then true else false.

Definition isfinite (x : np_float) : bool :=
  match x with Finite _ => true | _ => false end.

Definition neg (x : np_float) : np_float :=
  match x with
  | Finite r => Finite (- r)
  | PInf => NInf
  | NInf => PInf
  | NaN => NaN
  end.

Definition add (x y : np_float) : np_float :=
  match x, y with
  | NaN, _ | _, NaN => NaN
  | Finite a, Finite b => Finite (a + b)
  | PInf, NInf | NInf, PInf => NaN
  | PInf, _ | _, PInf => PInf
  | NInf, _ | _, NInf => NInf
  end.

Definition sub (x y : np_float) : np_float := add x (neg y).

(** An infinity of sign [pos] scaled by the finite factor [r]. *)
Definition inf_times (pos : bool) (r : R) : np_float :=
  if Reqb r 0 then NaN
  else if xorb pos (Rltb 0 r) then NInf else PInf.

Definition mul (x y : np_float) : np_float :=
  match x, y with
  | NaN, _ | _, NaN => NaN
  | Finite a, Finite b => Finite (a * b)
  | PInf, Finite r | Finite r, PInf => inf_times true r
  | NInf, Finite r | Finite r, NInf => inf_times false r
  | PInf, PInf | NInf, NInf => PInf
  | PInf, NInf | NInf, PInf => NInf
  end.

Definition div (x y : np_float) : np_float :=
  match x, y with
  | NaN, _ | _, NaN => NaN
  | Finite a, Finite b =>
      if Reqb b 0 then
        (if Reqb a 0 then NaN else if Rltb 0 a then PInf else NInf)
      else Finite (a / b)
  | Finite _, (PInf | NInf) => Finite 0
  | PInf, Finite b => if Rltb b 0 then NInf else PInf
  | NInf, Finite b => if Rltb b 0 then PInf else NInf
  | (PInf | NInf), (PInf | NInf) => NaN
  end.

(** [x ** 2] *)
Definition square (x : np_float) : np_float := mul x x.

(** [x ** (1./3)]: nan on a negative base, as numpy's power gives. *)
Definition pow_third (x : np_float) : np_float :=
  match x with
  | Finite r =>
      if Rltb r 0 then NaN
      else if Reqb r 0 then Finite 0
      else Finite (Rpower r (1 / 3))
  | PInf | NInf => PInf
  | NaN => NaN
  end.

Definition sin (x : np_float) : np_float :=
  match x with
  | Finite r => Finite (Rtrigo_def.sin r)
  | _ => NaN
  end.

Definition log (x : np_float) : np_float :=
  match x with
  | Finite r =>
      if Rltb r 0 then NaN
      else if Reqb r 0 then NInf
      else Finite (ln r)
  | PInf => PInf
  | NInf | NaN => NaN
  end.

Definition absolute (x : np_float) : np_float :=
  match x with
  | Finite r => Finite (Rabs r)
  | PInf | NInf => PInf
  | NaN => NaN
  end.

(** Comparisons: false as soon as one side is nan. *)
Definition lt (x y : np_float) : bool :=
  match x, y with
  | NaN, _ | _, NaN => false
  | Finite a, Finite b => Rltb a b
  | NInf, (Finite _ | PInf) => true
  | Finite _, PInf => true
  | _, _ => false
  end.

Definition le (x y : np_float) : bool :=
  match x, y with
  | NaN, _ | _, NaN => false
  | Finite a, Finite b => Rleb a b
  | NInf, _ => true
  | _, PInf => true
  | _, _ => false
  end.

Definition gt (x y : np_float) : bool := lt y x.

(** [a.sum()] of a one-dimensional array. *)
Definition sum (l : list np_float) : np_float :=
  fold_left add l (Finite 0).

End Np.

Import Np.

Local Open Scope R_scope.

(** ** numpy arrays *)

Abbreviation ndarray := (list np_float).

(** [a[mask]]: the entries of [a] where the boolean array is true. *)
Fixpoint select {A} (mask : list bool) (a : list A) : list A :=
  match mask, a with
  | m :: mask', x :: a' =>
      if m then x :: select mask' a' else select mask' a'
  | _, _ => []
  end.

(** [a[i:j]] *)
Definition slice {A} (i j : nat) (a : list A) : list A :=
  firstn (j - i) (skipn i a).

(** [a op b] on one-dimensional arrays, with numpy's broadcasting of a
    one-element operand; other length mismatches raise. *)
Definition broadcast2 (op : np_float -> np_float -> np_float)
    (a b : ndarray) : result ndarray :=
  if Nat.eqb (length a) (length b) then Ok (zip_with op a b)
  else match a, b with
       | [x], _ => Ok (map (op x) b)
       | _, [y] => Ok (map (fun u => op u y) a)
       | _, _ => Raise ValueError
       end.

(** The values of [v] go, in order, to the positions of [f] that [close]
    selects. *)
Fixpoint scatter (f : ndarray) (close : list bool) (v : ndarray) : ndarray :=
  match f, close with
  | x :: f', c :: close' =>
      if c then
        match v with
        | y :: v' => y :: scatter f' close' v'
        | [] => x :: scatter f' close' []
        end
      else x :: scatter f' close' v
  | _, _ => f
  end.

(** The number of true entries of a boolean array. *)
Fixpoint count_true (m : list bool) : nat :=
  match m with
  | [] => 0
  | b :: m' => (if b then 1 else 0) + count_true m'
  end.

(** [f[close] = v]: a one-element [v] is broadcast; any other length
    mismatch raises. *)
Definition mask_assign (f : ndarray) (close : list bool) (v : ndarray)
  : result ndarray :=
  if Nat.eqb (length v) (count_true close) then Ok (scatter f close v)
  else match v with
       | [y] => Ok (scatter f close (repeat y (count_true close)))
       | _ => Raise ValueError
       end.

(** A two-dimensional array: [ncols] columns, one list per row. *)
Record ndarray2 : Type := { ncols : nat; rows : list ndarray }.

(** [a[:, j]] *)
Definition column (a : ndarray2) (j : nat) : result ndarray :=
  if Nat.ltb j (ncols a) then Ok (map (fun r => nth j r NaN) (rows a))
  else Raise IndexError.

(** ** lightcurve.py *)

(** Modelled from the spec: [lnprior] reads the attributes [_period] and
    [_epoch] of a planet, which [Planet.__init__] in lightcurve.py does not
    set; the spec calls them the externally supplied discovery-measurement
    priors (mean, uncertainty) of the candidate's period and epoch. *)
Record Planet : Type := {
  period : np_float;
  epoch : np_float;
  duration : np_float;
  _period : np_float * np_float;
  _epoch : np_float * np_float
}.

(** [lc_class] is [type(lc)]. *)
Record LightCurve : Type := {
  lc_class : string;
  mask : list bool;
  texp : np_float;
  planets : list Planet;
  _time : ndarray;
  _flux : ndarray;
  _flux_err : ndarray;
  _detrended_flux : ndarray
}.

(** The series of a light curve have one length. *)
Definition lc_wf (lc : LightCurve) : Prop :=
  length (_time lc) = length (mask lc) /\
  length (_flux lc) = length (mask lc) /\
  length (_flux_err lc) = length (mask lc) /\
  length (_detrended_flux lc) = length (mask lc).

Module PlanetM.
Section PlanetMethods.
(** [utils.t_folded(t, period, epoch)] at one time; utils.py is an
    argument of the model. *)
Variable utils_t_folded : np_float -> np_float -> np_float -> np_float.

Definition t_folded (self : Planet) (t : ndarray) : ndarray :=
  map (fun x => utils_t_folded x (period self) (epoch self)) t.

Definition t_close (self : Planet) (t : ndarray) (width : np_float)
  : list bool :=
  map (fun x => Np.lt (Np.absolute x) (Np.mul width (duration self)))
      (t_folded self t).

Definition in_transit (self : Planet) (t : ndarray) (width : np_float)
  : list bool :=
  t_close self t width.
End PlanetMethods.
End PlanetM.

Module LightCurveM.

Definition time (self : LightCurve) : ndarray :=
  select (map negb (mask self)) (_time self).

Definition t (self : LightCurve) : ndarray := time self.

Definition rawflux (self : LightCurve) : ndarray :=
  select (map negb (mask self)) (_flux self).

Definition flux_err (self : LightCurve) : ndarray :=
  select (map negb (mask self)) (_flux_err self).

Definition flux (self : LightCurve) : ndarray :=
  select (map negb (mask self)) (_detrended_flux self).

(** The property [f] returns [self.f]: each evaluation evaluates the
    property again.  [depth] is the number of frames the interpreter
    still allows; when none is left the interpreter raises. *)
Fixpoint f (depth : nat) (self : LightCurve) : result ndarray :=
  match depth with
  | O => Raise RuntimeError
  | S d => f d self
  end.

Definition n_planets (self : LightCurve) : nat := length (planets self).

Section LightCurveMethods.
Variable utils_t_folded : np_float -> np_float -> np_float -> np_float.

Definition t_close (self : LightCurve) (i : nat) (width : np_float)
  : result (list bool) :=
  match planets self !! i with
  | Some pl => Ok (PlanetM.t_close utils_t_folded pl (time self) width)
  | None => Raise IndexError
  end.

(** Modelled from the spec: [TransitModel.evaluate] calls
    [lc.close(i, width=...)], which lightcurve.py does not define.  The
    spec has the evaluator ask the light curve for the observation indices
    near candidate [i]'s transit window, the window width being given in
    units of the duration: that is what [t_close] computes. *)
Definition close (self : LightCurve) (i : nat) (width : np_float)
  : result (list bool) :=
  t_close self i width.
End LightCurveMethods.
End LightCurveM.

(** ** pandas: data frames and HDF stores *)

(** A data frame: its columns in order, each with its name. *)
Abbreviation DataFrame := (list (string * list np_float)).

(** [df[name] = col]: replaces the column of that name, or appends one. *)
Fixpoint df_set (df : DataFrame) (name : string) (col : ndarray) : DataFrame :=
  match df with
  | [] => [(name, col)]
  | (n, c) :: df' =>
      if String.eqb n name then (n, col) :: df'
      else (n, c) :: df_set df' name col
  end.

(** The attributes [save_hdf] attaches to the node of the samples. *)
Record node_attrs : Type := {
  attr_width : option np_float;
  attr_continuum_method : option string;
  attr_lc_type : option string
}.

Definition no_attrs : node_attrs :=
  {| attr_width := None; attr_continuum_method := None; attr_lc_type := None |}.

Record hdf_node : Type := {
  node_frame : DataFrame;
  node_attrs_of : node_attrs
}.

(** An HDF file: its tables by absolute key ([/path/samples]). *)
Abbreviation hdf_file := (gmap string hdf_node).

(** The file system: the HDF files by name. *)
Abbreviation filesystem := (gmap string (gmap string hdf_node)).

(** pandas addresses a node by its absolute path. *)
Definition norm_key (key : string) : string :=
  if String.prefix "/" key then key else "/" ++ key.

(** A node exists at [k] when [k] is the root, a table or a group above a
    table. *)
Definition node_exists (file : hdf_file) (k : string) : bool :=
  String.eqb k "/"
  || bool_decide (is_Some (file !! k))
  || existsb (fun key => String.prefix (k ++ "/") key)
             (map fst (map_to_list file)).

(** [path in store] *)
Definition store_contains (file : hdf_file) (path : string) : bool :=
  node_exists file (norm_key path).

(** ** The world the methods run in *)

Inductive call : Type :=
| CallLnlike (p : ndarray)
| CallLcEval (p : ndarray) (times : ndarray) (texp : np_float)
| CallMakeSamples.

Record world : Type := {
  files : filesystem;
  calls : list call
}.

Definition M (A : Type) : Type := world -> result A * world.

Definition ret {A} (a : A) : M A := fun w => (Ok a, w).

Definition raise {A} (e : exn) : M A := fun w => (Raise e, w).

Definition bind {A B} (m : M A) (k : A -> M B) : M B :=
  fun w =>
    match m w with
    | (Ok a, w') => k a w'
    | (Raise e, w') => (Raise e, w')
    end.

(** [try: a = m  except e: h], followed by [k a]. *)
Definition try_except {A B} (m : M A) (e : exn) (h : M B) (k : A -> M B)
  : M B :=
  fun w =>
    match m w with
    | (Ok a, w') => k a w'
    | (Raise e', w') => if exn_eqb e' e then h w' else (Raise e', w')
    end.

Definition lift {A} (r : result A) : M A := fun w => (r, w).

Definition log_call (c : call) : M unit :=
  fun w => (Ok tt, {| files := files w; calls := calls w ++ [c] |}).

Definition get_files : M filesystem := fun w => (Ok (files w), w).

Definition put_files (fs : filesystem) : M unit :=
  fun w => (Ok tt, {| files := fs; calls := calls w |}).

Notation "x <- c ;; k" := (bind c (fun x => k))
  (at level 100, c at next level, right associativity).
Notation "c ;;; k" := (bind c (fun _ => k))
  (at level 100, right associativity).

(** ** fitter.py *)

(** The ensemble sampler after a run, as far as the model reads it. *)
Record Sampler : Type := { flatchain : ndarray2 }.

(** [sampler = None] is an object without the attribute [sampler]. *)
Record TransitModel : Type := {
  lc : LightCurve;
  width : np_float;
  continuum_method : string;
  _bestfit : option ndarray;
  _samples : option DataFrame;
  sampler : option Sampler
}.

Definition DAY : np_float := Finite 86400.

Definition index {A} (a : list A) (i : nat) : result A :=
  match a !! i with
  | Some x => Ok x
  | None => Raise IndexError
  end.

(** [close += c] on boolean arrays. *)
Definition iadd_bool (close c : list bool) : result (list bool) :=
  if Nat.eqb (length close) (length c) then Ok (zip_with orb close c)
  else match c with
       | [y] => Ok (map (fun x => orb x y) close)
       | _ => Raise ValueError
       end.

Definition ones_like (t : ndarray) : ndarray := map (fun _ => Finite 1) t.

(** [np.zeros_like(t).astype(bool)] *)
Definition zeros_like_bool (t : ndarray) : list bool := map (fun _ => false) t.

(** [TransitModel.__init__] *)
Definition init (lc0 : LightCurve) (width0 : np_float)
    (continuum_method0 : string) : TransitModel :=
  {| lc := lc0; width := width0; continuum_method := continuum_method0;
     _bestfit := None; _samples := None; sampler := None |}.

(** [p] is the argument after [np.atleast_1d]. *)
Definition continuum (p : ndarray) (t : ndarray) : result ndarray :=
  rbind (index p 0) (fun p0 => Ok (map (Np.mul p0) (ones_like t))).

Section Inference.

(** What the model takes from outside the two source files:
    the gravitational constant of astropy (cgs), [utils.t_folded],
    the transit-physics model [utils.lc_eval], and the loader and saver of
    the observation series. *)
Variable G : R.
Variable utils_t_folded : np_float -> np_float -> np_float -> np_float.
Variable lc_eval : ndarray -> ndarray -> np_float -> result ndarray.
Variable lc_save_hdf :
  LightCurve -> string -> string -> bool -> filesystem ->
  result unit * filesystem.
Variable lc_load_hdf :
  string -> string -> string -> filesystem -> result LightCurve * filesystem.

(** The loop of [evaluate] over [range(n_planets)]. *)
Fixpoint close_loop (l : LightCurve) (w : np_float) (idx : list nat)
    (close : list bool) : result (list bool) :=
  match idx with
  | [] => Ok close
  | i :: idx' =>
      rbind (LightCurveM.close utils_t_folded l i w) (fun c =>
      rbind (iadd_bool close c) (fun close' =>
      close_loop l w idx' close'))
  end.

Definition evaluate (self : TransitModel) (p : ndarray) : M ndarray :=
  p0 <- lift (index p 0) ;;
  f <- lift (continuum [p0] (LightCurveM.t (lc self))) ;;
  close <- lift (close_loop (lc self) (width self)
                   (seq 0 (LightCurveM.n_planets (lc self)))
                   (zeros_like_bool (LightCurveM.t (lc self)))) ;;
  let times := select close (LightCurveM.t (lc self)) in
  log_call (CallLcEval (skipn 1 p) times (texp (lc self))) ;;;
  v <- lift (lc_eval (skipn 1 p) times (texp (lc self))) ;;
  lift (mask_assign f close v).

Definition lnlike (self : TransitModel) (p : ndarray) : M np_float :=
  log_call (CallLnlike p) ;;;
  try_except (evaluate self p) InvalidParameterError (ret NInf)
    (fun flux_model =>
       d <- lift (broadcast2 Np.sub flux_model (LightCurveM.flux (lc self))) ;;
       let num := map (Np.mul (Finite (-0.5))) (map Np.square d) in
       let den := map Np.square (LightCurveM.flux_err (lc self)) in
       q <- lift (broadcast2 Np.div num den) ;;
       ret (Np.sum q)).

(** The body of the loop of [lnprior], from candidate [i] on; [pls] are
    [planets[i:]] and [tot] the sum so far. *)
Fixpoint lnprior_loop (p : ndarray) (rhostar : np_float)
    (pls : list Planet) (i : nat) (tot : np_float) : result np_float :=
  match pls with
  | [] => Ok tot
  | pl :: pls' =>
      match slice (5 + i * 6) (11 + i * 6) p with
      | [period; epoch; b; rprs; e; w] =>
          let factor :=
            if Np.gt e (Finite 0)
            then Np.div (Np.add (Finite 1) (Np.mul e (Np.sin w)))
                        (Np.sub (Finite 1) (Np.mul e e))
            else Finite 1 in
          let aR :=
            Np.pow_third
              (Np.div (Np.mul (Np.mul rhostar (Finite G))
                              (Np.square (Np.mul period DAY)))
                      (Finite (3 * PI))) in
          let arg := Np.div (Np.mul b factor) aR in
          if Np.gt arg (Finite 1) then Ok NInf
          else if Np.le period (Finite 0) then Ok NInf
          else if negb (Np.le (Finite 0) e && Np.lt e (Finite 1)) then Ok NInf
          else if Np.lt b (Finite 0) then Ok NInf
          else if Np.le rprs (Finite 0) then Ok NInf
          else
            let '(prior_p, prior_p_err) := _period pl in
            let tot1 :=
              Np.add tot (Np.div (Np.mul (Finite (-0.5)) (Np.sub period prior_p))
                                 (Np.square prior_p_err)) in
            let '(prior_ep, prior_ep_err) := _epoch pl in
            let tot2 :=
              Np.add tot1 (Np.div (Np.mul (Finite (-0.5)) (Np.sub epoch prior_ep))
                                  (Np.square prior_ep_err)) in
            let tot3 := Np.add tot2 (Np.log (Np.div (Finite 1) rprs)) in
            lnprior_loop p rhostar pls' (S i) tot3
      | _ => Raise ValueError
      end
  end.

Definition lnprior (self : TransitModel) (p : ndarray) : result np_float :=
  match firstn 5 p with
  | [flux_zp; rhostar; q1; q2; dilution] =>
      if negb (Np.le (Finite 0) q1 && Np.le q1 (Finite 1)
               && (Np.le (Finite 0) q2 && Np.le q2 (Finite 1)))
      then Ok NInf
      else if Np.lt rhostar (Finite 0) then Ok NInf
      else if negb (Np.le (Finite 0) dilution && Np.lt dilution (Finite 1))
      then Ok NInf
      else lnprior_loop p rhostar (planets (lc self)) 0 (Finite 0)
  | _ => Raise ValueError
  end.

(** The body of [lnpost], with the two methods it looks up on [self] as
    arguments (a subclass or a test may replace them). *)
Definition lnpost_with (lnprior_m lnlike_m : ndarray -> M np_float)
    (p : ndarray) : M np_float :=
  prior <- lnprior_m p ;;
  if Np.isfinite prior then
    like <- lnlike_m p ;;
    ret (Np.add prior like)
  else ret prior.

Definition lnpost (self : TransitModel) (p : ndarray) : M np_float :=
  lnpost_with (fun q => lift (lnprior self q)) (lnlike self) p.

Definition cost (self : TransitModel) (p : ndarray) : M np_float :=
  v <- lnpost self p ;; ret (Np.neg v).

(** [fit_emcee], as far as the model object is concerned: the run of the
    external ensemble sampler is [run], which the method stores. *)
Definition fit_emcee (self : TransitModel) (run : Sampler) : TransitModel :=
  {| lc := lc self; width := width self;
     continuum_method := continuum_method self;
     _bestfit := _bestfit self; _samples := _samples self;
     sampler := Some run |}.

Definition set_samples (self : TransitModel) (df : option DataFrame)
  : TransitModel :=
  {| lc := lc self; width := width self;
     continuum_method := continuum_method self;
     _bestfit := _bestfit self; _samples := df;
     sampler := sampler self |}.

Definition planet_params : list string :=
  ["period"; "epoch"; "b"; "rprs"; "ecc"; "omega"].

(** ['{}_{}'.format(par, i+1)] *)
Definition column_name (par : string) (i : nat) : string :=
  par ++ "_" ++ pretty (i + 1)%nat.

(** The inner loop of [_make_samples] over [enumerate(planet_params)]. *)
Fixpoint make_planet_columns (chain : ndarray2) (i : nat)
    (pars : list string) (j : nat) (df : DataFrame) : result DataFrame :=
  match pars with
  | [] => Ok df
  | par :: pars' =>
      rbind (column chain (5 + j + i * 6)) (fun col =>
      make_planet_columns chain i pars' (S j) (df_set df (column_name par i) col))
  end.

(** The outer loop of [_make_samples] over [range(n_planets)]. *)
Fixpoint make_columns (chain : ndarray2) (idx : list nat) (df : DataFrame)
  : result DataFrame :=
  match idx with
  | [] => Ok df
  | i :: idx' =>
      rbind (make_planet_columns chain i planet_params 0 df) (fun df' =>
      make_columns chain idx' df')
  end.

(** The table pandas builds from [dict(flux_zp=..., rho=..., q1=..., q2=...,
    dilution=...)] has its columns in the order of the sorted names. *)
Definition _make_samples (self : TransitModel) : M TransitModel :=
  log_call CallMakeSamples ;;;
  s <- match sampler self with
       | Some s => ret s
       | None => raise AttributeError
       end ;;
  flux_zp <- lift (column (flatchain s) 0) ;;
  rho <- lift (column (flatchain s) 1) ;;
  q1 <- lift (column (flatchain s) 2) ;;
  q2 <- lift (column (flatchain s) 3) ;;
  dilution <- lift (column (flatchain s) 4) ;;
  let df := [("dilution", dilution); ("flux_zp", flux_zp); ("q1", q1);
             ("q2", q2); ("rho", rho)] in
  df' <- lift (make_columns (flatchain s)
                 (seq 0 (LightCurveM.n_planets (lc self))) df) ;;
  ret (set_samples self (Some df')).

(** The property [samples].  The value is [self._samples] as Python has it
    ([None] is Python's [None]); the second component is [self] after the
    access. *)
Definition samples (self : TransitModel)
  : M (option DataFrame * TransitModel) :=
  if negb (bool_decide (is_Some (sampler self)))
     && negb (bool_decide (is_Some (_samples self)))
  then raise AttributeError
  else
    match _samples self with
    | Some df => ret (Some df, self)
    | None =>
        self' <- _make_samples self ;;
        ret (_samples self', self')
    end.

(** [pd.HDFStore(filename)]: opens the file, creating it when missing. *)
Definition open_store (filename : string) : M hdf_file :=
  fs <- get_files ;;
  match fs !! filename with
  | Some store => ret store
  | None => put_files (<[filename := ∅]> fs) ;;; ret ∅
  end.

(** [df.to_hdf(filename, key)] *)
Definition to_hdf (df : option DataFrame) (filename key : string) : M unit :=
  match df with
  | None => raise AttributeError
  | Some d =>
      store <- open_store filename ;;
      fs <- get_files ;;
      put_files
        (<[filename :=
             <[norm_key key := {| node_frame := d; node_attrs_of := no_attrs |}]>
               store]> fs)
  end.

(** [store.get_storer(key)], with the store being that of [filename]. *)
Definition get_storer (filename key : string) : M hdf_node :=
  store <- open_store filename ;;
  match store !! norm_key key with
  | Some node => ret node
  | None => raise AttributeError
  end.

(** The three assignments to [attrs] in [save_hdf]. *)
Definition set_attrs (filename key : string) (a : node_attrs) : M unit :=
  node <- get_storer filename key ;;
  store <- open_store filename ;;
  fs <- get_files ;;
  put_files
    (<[filename :=
         <[norm_key key := {| node_frame := node_frame node;
                              node_attrs_of := a |}]> store]> fs).

Definition run_lc_save_hdf (l : LightCurve) (filename path : string)
    (append : bool) : M unit :=
  fun w =>
    let '(r, fs') := lc_save_hdf l filename path append (files w) in
    (r, {| files := fs'; calls := calls w |}).

Definition run_lc_load_hdf (lc_type filename path : string) : M LightCurve :=
  fun w =>
    let '(r, fs') := lc_load_hdf lc_type filename path (files w) in
    (r, {| files := fs'; calls := calls w |}).

(** The first part of [save_hdf]: what is done about an existing file. *)
Definition save_hdf_check (filename path : string) (overwrite append : bool)
  : M unit :=
  fs <- get_files ;;
  match fs !! filename with
  | Some store =>
      if store_contains store path then
        if overwrite then put_files (delete filename fs)
        else if negb append then raise IOError
        else ret tt
      else ret tt
  | None => ret tt
  end.

(** The second part of [save_hdf]: the samples, their attributes and the
    light curve are written. *)
Definition save_hdf_write (self : TransitModel) (filename path : string)
  : M TransitModel :=
  r <- samples self ;;
  let df := fst r in
  let self' := snd r in
  to_hdf df filename (path ++ "/samples") ;;;
  set_attrs filename (path ++ "/samples")
    {| attr_width := Some (width self');
       attr_continuum_method := Some (continuum_method self');
       attr_lc_type := Some (lc_class (lc self')) |} ;;;
  run_lc_save_hdf (lc self') filename path true ;;;
  ret self'.

(** [save_hdf]; the value is [self] after the call. *)
Definition save_hdf (self : TransitModel) (filename path : string)
    (overwrite append : bool) : M TransitModel :=
  save_hdf_check filename path overwrite append ;;;
  save_hdf_write self filename path.

Definition get_attr {A} (a : option A) : M A :=
  match a with
  | Some x => ret x
  | None => raise AttributeError
  end.

Definition load_hdf (filename path : string) : M TransitModel :=
  store <- open_store filename ;;
  node <- match store !! norm_key (path ++ "/samples") with
          | Some node => ret node
          | None => raise KeyError
          end ;;
  let samples0 := node_frame node in
  let attrs := node_attrs_of node in
  width0 <- get_attr (attr_width attrs) ;;
  continuum_method0 <- get_attr (attr_continuum_method attrs) ;;
  lc_type <- get_attr (attr_lc_type attrs) ;;
  lc0 <- run_lc_load_hdf lc_type filename path ;;
  let model := init lc0 width0 continuum_method0 in
  ret (set_samples model (Some samples0)).

End Inference.

(** * The specification's formulas

    These definitions follow the words of the specification; the theorems
    below compare them with the methods above. *)

(** Entry [k] of the parameter vector. *)
Definition param (p : ndarray) (k : nat) : np_float := nth k p NaN.

(** A limb-darkening coefficient outside [0,1], a negative stellar density,
    or a dilution outside [0,1). *)
Definition star_invalid (p : ndarray) : bool :=
  let rhostar := param p 1 in
  let q1 := param p 2 in
  let q2 := param p 3 in
  let dilution := param p 4 in
  negb (Np.le (Finite 0) q1 && Np.le q1 (Finite 1))
  || negb (Np.le (Finite 0) q2 && Np.le q2 (Finite 1))
  || Np.lt rhostar (Finite 0)
  || negb (Np.le (Finite 0) dilution && Np.lt dilution (Finite 1)).

(** The scaled semi-major axis derived from stellar density and period. *)
Definition scaled_semi_major_axis (G : R) (rhostar period : np_float)
  : np_float :=
  Np.pow_third
    (Np.div (Np.mul (Np.mul rhostar (Finite G)) (Np.square (Np.mul period DAY)))
            (Finite (3 * PI))).

(** The scaled impact parameter b (1 + e sin w) / ((1 - e^2) aR). *)
Definition scaled_impact (G : R) (rhostar period b e w : np_float) : np_float :=
  Np.div
    (Np.mul b (Np.div (Np.add (Finite 1) (Np.mul e (Np.sin w)))
                      (Np.sub (Finite 1) (Np.mul e e))))
    (scaled_semi_major_axis G rhostar period).

(** Candidate [i] has a period <= 0, an eccentricity outside [0,1), a
    negative impact parameter, a radius ratio <= 0, or a scaled impact
    parameter above 1. *)
Definition candidate_invalid (G : R) (p : ndarray) (i : nat) : bool :=
  let rhostar := param p 1 in
  let period := param p (5 + i * 6) in
  let b := param p (7 + i * 6) in
  let rprs := param p (8 + i * 6) in
  let e := param p (9 + i * 6) in
  let w := param p (10 + i * 6) in
  Np.le period (Finite 0)
  || negb (Np.le (Finite 0) e && Np.lt e (Finite 1))
  || Np.lt b (Finite 0)
  || Np.le rprs (Finite 0)
  || Np.gt (scaled_impact G rhostar period b e w) (Finite 1).

(** The time [x] lies within [width] durations of the transit window of
    some candidate of the light curve. *)
Definition near_transit
    (utils_t_folded : np_float -> np_float -> np_float -> np_float)
    (l : LightCurve) (width : np_float) (x : np_float) : bool :=
  existsb
    (fun pl =>
       Np.lt (Np.absolute (utils_t_folded x (period pl) (epoch pl)))
             (Np.mul width (duration pl)))
    (planets l).

(** The observation indices near a transit, as a boolean array. *)
Definition near_mask
    (utils_t_folded : np_float -> np_float -> np_float -> np_float)
    (l : LightCurve) (width : np_float) : list bool :=
  map (near_transit utils_t_folded l width) (LightCurveM.time l).

(** A Gaussian log-prior term: -1/2 ((x - mean) / err)^2. *)
Definition gaussian_term (x mean err : np_float) : np_float :=
  Np.mul (Finite (-0.5)) (Np.square (Np.div (Np.sub x mean) err)).

(** The finite value the specification gives to the log-prior: over the
    candidates from [i] on, the Gaussian terms of period and epoch against
    the discovery measurements, and minus the logarithm of the radius
    ratio. *)
Fixpoint gaussian_prior (p : ndarray) (pls : list Planet) (i : nat)
  : np_float :=
  match pls with
  | [] => Finite 0
  | pl :: pls' =>
      Np.add
        (Np.add
           (Np.add
              (gaussian_term (param p (5 + i * 6))
                 (fst (_period pl)) (snd (_period pl)))
              (gaussian_term (param p (6 + i * 6))
                 (fst (_epoch pl)) (snd (_epoch pl))))
           (Np.neg (Np.log (param p (8 + i * 6)))))
        (gaussian_prior p pls' (S i))
  end.

(** The sum of the squared normalised residuals ((model - observed)/error)^2. *)
Fixpoint chi2 (model observed err : ndarray) : np_float :=
  match model, observed, err with
  | m :: model', o :: observed', e :: err' =>
      Np.add (Np.square (Np.div (Np.sub m o) e)) (chi2 model' observed' err')
  | _, _, _ => Finite 0
  end.

(** The Gaussian log-likelihood: -1/2 of that sum. *)
Definition gaussian_loglike (model observed err : ndarray) : np_float :=
  Np.mul (Finite (-0.5)) (chi2 model observed err).

(** A finite, non-zero measurement error. *)
Definition finite_nonzero (x : np_float) : bool :=
  match x with
  | Finite r => negb (Np.Reqb r 0)
  | _ => false
  end.

(** The residual terms of real series, as the code and as the
    specification write them. *)
Fixpoint code_terms (ms os es : list R) : list R :=
  match ms, os, es with
  | m :: ms', o :: os', e :: es' =>
      (-0.5 * ((m + - o) * (m + - o)) / (e * e)) :: code_terms ms' os' es'
  | _, _, _ => []
  end.

Fixpoint chi2R (ms os es : list R) : R :=
  match ms, os, es with
  | m :: ms', o :: os', e :: es' =>
      ((m + - o) / e) * ((m + - o) / e) + chi2R ms' os' es'
  | _, _, _ => 0
  end.

(** The number of derivations of the sample table in a log of calls. *)
Fixpoint count_derivations (l : list call) : nat :=
  match l with
  | [] => 0
  | CallMakeSamples :: l' => S (count_derivations l')
  | _ :: l' => count_derivations l'
  end.

(** The target file exists and the path segment exists within it. *)
Definition conflict (fs : filesystem) (filename path : string) : bool :=
  match fs !! filename with
  | Some store => store_contains store path
  | None => false
  end.

(** The key of the samples under [path], and the node [save_hdf] leaves
    there. *)
Definition samples_key (path : string) : string :=
  norm_key (path ++ "/samples").

Definition samples_node (self : TransitModel) (df : DataFrame) : hdf_node :=
  {| node_frame := df;
     node_attrs_of :=
       {| attr_width := Some (width self);
          attr_continuum_method := Some (continuum_method self);
          attr_lc_type := Some (lc_class (lc self)) |} |}.

(** A computation that never raises [IOError]. *)
Definition no_ioerror {A} (m : M A) : Prop :=
  forall w, fst (m w) <> Raise IOError.

(** * What [lnprior] computes

    The tests of the loop of [lnprior] on candidate [i], and the sum the
    loop builds when every candidate passes them. *)

Definition impact_arg (G : R) (rhostar period b e w : np_float) : np_float :=
  Np.div
    (Np.mul b
       (if Np.gt e (Finite 0)
        then Np.div (Np.add (Finite 1) (Np.mul e (Np.sin w)))
                    (Np.sub (Finite 1) (Np.mul e e))
        else Finite 1))
    (scaled_semi_major_axis G rhostar period).

Definition candidate_accepted (G : R) (p : ndarray) (i : nat) : bool :=
  let rhostar := param p 1 in
  let period := param p (5 + i * 6) in
  let b := param p (7 + i * 6) in
  let rprs := param p (8 + i * 6) in
  let e := param p (9 + i * 6) in
  let w := param p (10 + i * 6) in
  negb (Np.gt (impact_arg G rhostar period b e w) (Finite 1))
  && negb (Np.le period (Finite 0))
  && (Np.le (Finite 0) e && Np.lt e (Finite 1))
  && negb (Np.lt b (Finite 0))
  && negb (Np.le rprs (Finite 0)).

(** [-0.5*(x - mean)/err**2] *)
Definition prior_term (x mean err : np_float) : np_float :=
  Np.div (Np.mul (Finite (-0.5)) (Np.sub x mean)) (Np.square err).

Fixpoint prior_sum (p : ndarray) (pls : list Planet) (i : nat)
    (tot : np_float) : np_float :=
  match pls with
  | [] => tot
  | pl :: pls' =>
      prior_sum p pls' (S i)
        (Np.add
           (Np.add
              (Np.add tot
                 (prior_term (param p (5 + i * 6))
                    (fst (_period pl)) (snd (_period pl))))
              (prior_term (param p (6 + i * 6))
                 (fst (_epoch pl)) (snd (_epoch pl))))
           (Np.log (Np.div (Finite 1) (param p (8 + i * 6)))))
  end.

(** * Vocabulary of the further properties *)

(** The node under key [k] of the file [filename], if any. *)
Definition node_at (fs : filesystem) (filename k : string) : option hdf_node :=
  match fs !! filename with
  | Some store => store !! k
  | None => None
  end.

(** The names of the star-level columns of the sample table, and of the
    columns of [n] candidates, in the order of the table. *)
Definition star_columns : list string :=
  ["dilution"; "flux_zp"; "q1"; "q2"; "rho"].

Definition planet_columns (n : nat) : list string :=
  flat_map (fun i => map (fun par => column_name par i) planet_params)
           (seq 0 n).

(** Column [j] of a chain that has it. *)
Definition chain_column (chain : ndarray2) (j : nat) : ndarray :=
  map (fun r => nth j r NaN) (rows chain).

(** * The remaining methods of lightcurve.py and fitter.py *)

Module PlanetMore.

(** [Planet.ith_transit]; [i] is the number of the transit. *)
Definition ith_transit (self : Planet) (t : ndarray) (i : Z)
    (width : np_float) : list bool :=
  let per := period self in
  let ep := epoch self in
  map (fun x =>
         Np.lt
           (Np.absolute
              (Np.sub
                 (Np.sub
                    (Np.div (Np.add (Np.sub x ep) (Np.div per (Finite 2))) per)
                    (Np.div per (Finite 2)))
                 (Finite (IZR i))))
           (Np.mul width (duration self)))
      t.

End PlanetMore.

Module LightCurveMore.
Section LightCurveMoreMethods.
Variable utils_t_folded : np_float -> np_float -> np_float -> np_float.

Definition t_folded (self : LightCurve) (i : nat) : result ndarray :=
  match planets self !! i with
  | Some pl => Ok (PlanetM.t_folded utils_t_folded pl (LightCurveM.time self))
  | None => Raise IndexError
  end.

Definition intransit (self : LightCurve) (i : nat) (width : np_float)
  : result (list bool) :=
  match planets self !! i with
  | Some pl =>
      Ok (PlanetM.in_transit utils_t_folded pl (LightCurveM.time self) width)
  | None => Raise IndexError
  end.

(** The loop [for i in range(n_planets): acc += window(i)] of [anyclose]
    and of [any_intransit]. *)
Fixpoint mask_union (window : nat -> result (list bool)) (idx : list nat)
    (acc : list bool) : result (list bool) :=
  match idx with
  | [] => Ok acc
  | i :: idx' =>
      rbind (window i) (fun c =>
      rbind (iadd_bool acc c) (fun acc' =>
      mask_union window idx' acc'))
  end.

(** The property [anyclose]; [t_close] is called with its default width. *)
Definition anyclose (self : LightCurve) : result (list bool) :=
  mask_union (fun i => LightCurveM.t_close utils_t_folded self i (Finite 2))
    (seq 0 (LightCurveM.n_planets self))
    (zeros_like_bool (LightCurveM.time self)).

(** The property [any_intransit]; [intransit] is called with its default
    width. *)
Definition any_intransit (self : LightCurve) : result (list bool) :=
  mask_union (fun i => intransit self i (Finite 0.55))
    (seq 0 (LightCurveM.n_planets self))
    (zeros_like_bool (LightCurveM.time self)).

End LightCurveMoreMethods.

Definition ith_transit (self : LightCurve) (i : Z) (i_planet : nat)
    (width : np_float) : result (list bool) :=
  match planets self !! i_planet with
  | Some pl => Ok (PlanetMore.ith_transit pl (LightCurveM.t self) i width)
  | None => Raise IndexError
  end.

End LightCurveMore.

(** The starting positions of the walkers in [fit_emcee]:
    [np.absolute(noise + np.array(p0)[None,:])], where [noise] is the draw
    [np.random.normal(0, 0.001, size=(nwalkers, ndim))], one row per walker
    and one entry per parameter. *)
Definition fit_emcee_walkers (noise : list ndarray) (p0 : ndarray)
  : list ndarray :=
  map (fun row => map Np.absolute (zip_with Np.add row p0)) noise.

(** The test of one time against the window of one candidate, [width]
    durations wide. *)
Definition window_test
    (utils_t_folded : np_float -> np_float -> np_float -> np_float)
    (width : np_float) (pl : Planet) (x : np_float) : bool :=
  Np.lt (Np.absolute (utils_t_folded x (period pl) (epoch pl)))
        (Np.mul width (duration pl)).

(** The column names [triangle] plots by default for candidate [i]
    (the list built when [params] is [None]). *)
Definition triangle_default_params (i : nat) : list string :=
  (["dilution"; "rho"; "q1"; "q2"]
   ++ map (fun par => column_name par i) planet_params)%list.

(** * Sample data

    A light curve with one candidate, and the stand-ins for the external
    collaborators with which the properties are exercised. *)

(** The gravitational constant in cgs units. *)
Definition G_cgs : R := 6.674e-8.

Definition planet1 : Planet :=
  {| period := Finite 3; epoch := Finite 0.5; duration := Finite 0.1;
     _period := (Finite 3, Finite 1); _epoch := (Finite 0.5, Finite 1) |}.

Definition lc1 : LightCurve :=
  {| lc_class := "LightCurve"; mask := [false; false; true; false];
     texp := Finite 0.02; planets := [planet1];
     _time := [Finite 0.5; Finite 1; Finite 2; Finite 3.5];
     _flux := [Finite 0.99; Finite 1; NaN; Finite 0.99];
     _flux_err := [Finite 0.01; Finite 0.01; Finite 0.01; Finite 0.01];
     _detrended_flux := [Finite 0.99; Finite 1; NaN; Finite 0.99] |}.

Definition model1 : TransitModel := init lc1 (Finite 2) "constant".

(** A valid parameter vector whose period, 2, lies below the discovery
    period, 3. *)
Definition p_low : ndarray :=
  [Finite 1; Finite 1; Finite 0.5; Finite 0.5; Finite 0;
   Finite 2; Finite 0.5; Finite 0; Finite 1; Finite 0; Finite 0].

(** A vector with an infinite flux zero-point and valid orbital and stellar
    parameters. *)
Definition p_inf : ndarray :=
  [PInf; Finite 1; Finite 0.5; Finite 0.5; Finite 0;
   Finite 3; Finite 0.5; Finite 0; Finite 0.1; Finite 0; Finite 0].

(** A vector with the first limb-darkening coefficient outside [0,1]. *)
Definition p_bad_q1 : ndarray :=
  [Finite 1; Finite 1; Finite 2; Finite 0.5; Finite 0;
   Finite 3; Finite 0.5; Finite 0; Finite 1; Finite 0; Finite 0].

(** Stand-ins for the code outside the two source files: the time since
    the reference epoch for [utils.t_folded], a transit model that returns
    the flux 0.99 at every time it is given, one that rejects every
    parameter vector, a saver of the light curve that writes nothing and a
    loader that returns [lc1]. *)
Definition toy_t_folded (t per ep : np_float) : np_float := Np.sub t ep.

Definition toy_lc_eval (p times : ndarray) (texp0 : np_float)
  : result ndarray :=
  Ok (map (fun _ => Finite 0.99) times).

Definition failing_lc_eval (p times : ndarray) (texp0 : np_float)
  : result ndarray :=
  Raise InvalidParameterError.

Definition null_lc_save_hdf (l : LightCurve) (filename path : string)
    (append : bool) (fs : filesystem) : result unit * filesystem :=
  (Ok tt, fs).

Definition toy_lc_load_hdf (lc_type filename path : string)
    (fs : filesystem) : result LightCurve * filesystem :=
  (Ok lc1, fs).

(** A chain of one draw, and the table of a model whose samples were
    loaded. *)
Definition run1 : Sampler :=
  {| flatchain := {| ncols := 11; rows := [p_low] |} |}.

Definition df1 : DataFrame :=
  [("dilution", [Finite 0]); ("flux_zp", [Finite 1]); ("q1", [Finite 0.5]);
   ("q2", [Finite 0.5]); ("rho", [Finite 1])].

Definition model_loaded : TransitModel := set_samples model1 (Some df1).

(** A file system whose file fit.h5 holds samples under the path koi. *)
Definition fs_taken : filesystem :=
  {[ "fit.h5" :=
       {[ "/koi/samples" :=
            {| node_frame := [("flux_zp", [NaN])];
               node_attrs_of := no_attrs |} ]} ]}.

Definition world_taken : world := {| files := fs_taken; calls := [] |}.

Definition world0 : world := {| files := ∅; calls := [] |}.

(** A light curve without candidates and with nothing masked, a chain
    that is too narrow, a star block alone, a file system after a save, and
    a draw of noise that is zero. *)
Definition lc0 : LightCurve :=
  {| lc_class := "LightCurve"; mask := [false; false; false];
     texp := Finite 0.02; planets := [];
     _time := [Finite 0.5; Finite 1; Finite 3.5];
     _flux := [Finite 0.99; Finite 1; Finite 0.99];
     _flux_err := [Finite 0.01; Finite 0.01; Finite 0.01];
     _detrended_flux := [Finite 0.99; Finite 1; Finite 0.99] |}.

Definition model0 : TransitModel := init lc0 (Finite 2) "constant".

Definition run_narrow : Sampler :=
  {| flatchain := {| ncols := 3; rows := [] |} |}.

Definition p_star : ndarray :=
  [Finite 1; Finite 1; Finite 0.5; Finite 0.5; Finite 0].

Definition fs_saved : filesystem :=
  {[ "fit.h5" := {[ samples_key "koi" := samples_node model_loaded df1 ]} ]}.

Definition world_saved : world := {| files := fs_saved; calls := [] |}.

Definition noise0 : list ndarray := [[Finite 0; Finite 0]].

Definition p0_signed : ndarray := [Finite (-1); Finite 2].

(** * Properties *)

Ltac unfold_monad :=
  unfold bind, ret, raise, lift, try_except, log_call, get_files, put_files
    in *.

(** ** The accessors of [LightCurve] *)

Lemma f_raises (depth : nat) (l : LightCurve) :
  LightCurveM.f depth l = Raise RuntimeError.
Proof. induction depth as [|d IH]; [reflexivity | exact IH]. Qed.


(** ** Arithmetic on [np_float] *)

Lemma Rltb_true (x y : R) : Np.Rltb x y = true <-> x < y.
Proof. unfold Np.Rltb. destruct (Rlt_dec x y); split; try easy. Qed.

Lemma Rltb_false (x y : R) : Np.Rltb x y = false <-> ~ x < y.
Proof. unfold Np.Rltb. destruct (Rlt_dec x y); split; try easy. Qed.

Lemma Rleb_true (x y : R) : Np.Rleb x y = true <-> x <= y.
Proof. unfold Np.Rleb. destruct (Rle_dec x y); split; try easy. Qed.

Lemma Rleb_false (x y : R) : Np.Rleb x y = false <-> ~ x <= y.
Proof. unfold Np.Rleb. destruct (Rle_dec x y); split; try easy. Qed.

Lemma Reqb_true (x y : R) : Np.Reqb x y = true <-> x = y.
Proof. unfold Np.Reqb. destruct (Req_dec_T x y); split; try easy. Qed.

Lemma Reqb_false (x y : R) : Np.Reqb x y = false <-> x <> y.
Proof. unfold Np.Reqb. destruct (Req_dec_T x y); split; try easy. Qed.

(** Decides the comparisons of reals that a goal or a hypothesis tests. *)
Ltac Rcases :=
  unfold Np.Rltb, Np.Rleb, Np.Reqb in *;
  repeat match goal with
    | |- context [Rlt_dec ?a ?b] => destruct (Rlt_dec a b)
    | |- context [Rle_dec ?a ?b] => destruct (Rle_dec a b)
    | |- context [Req_dec_T ?a ?b] => destruct (Req_dec_T a b)
    | H : context [Rlt_dec ?a ?b] |- _ => destruct (Rlt_dec a b)
    | H : context [Rle_dec ?a ?b] |- _ => destruct (Rle_dec a b)
    | H : context [Req_dec_T ?a ?b] |- _ => destruct (Req_dec_T a b)
    end.

Lemma Reqb_neq (x y : R) : x <> y -> Np.Reqb x y = false.
Proof. apply Reqb_false. Qed.

Lemma Reqb_eq (x y : R) : x = y -> Np.Reqb x y = true.
Proof. apply Reqb_true. Qed.

Lemma Rltb_lt (x y : R) : x < y -> Np.Rltb x y = true.
Proof. apply Rltb_true. Qed.

Lemma Rltb_nlt (x y : R) : ~ x < y -> Np.Rltb x y = false.
Proof. apply Rltb_false. Qed.

Lemma Rleb_le (x y : R) : x <= y -> Np.Rleb x y = true.
Proof. apply Rleb_true. Qed.

Lemma Rleb_nle (x y : R) : ~ x <= y -> Np.Rleb x y = false.
Proof. apply Rleb_false. Qed.

(** Settles the comparisons of a goal that linear arithmetic decides. *)
Ltac Rdecide :=
  repeat match goal with
    | |- context [Np.Rltb ?a ?b] =>
        first [rewrite (Rltb_lt a b) by lra | rewrite (Rltb_nlt a b) by lra]
    | |- context [Np.Rleb ?a ?b] =>
        first [rewrite (Rleb_le a b) by lra | rewrite (Rleb_nle a b) by lra]
    | |- context [Np.Reqb ?a ?b] =>
        first [rewrite (Reqb_eq a b) by lra | rewrite (Reqb_neq a b) by lra]
    end.

Ltac Rabs_eval :=
  repeat match goal with
    | |- context [Rabs ?x] =>
        first [rewrite (Rabs_right x) by lra | rewrite (Rabs_left x) by lra]
    end.

(** Evaluates the operations of [np_float] on finite arguments. *)
Ltac np_eval :=
  repeat (progress
            (unfold Np.inf_times;
             cbn [Np.gt Np.lt Np.le Np.add Np.sub Np.neg Np.mul Np.div
                  Np.square Np.log Np.sin Np.isfinite
                  Np.absolute andb negb orb xorb];
             Rdecide)).

Lemma semi_major_axis_pos (G r P : R) :
  0 < G -> 0 < r -> 0 < P ->
  exists a, 0 < a /\ scaled_semi_major_axis G (Finite r) (Finite P) = Finite a.
Proof.
  intros HG Hr HP. unfold scaled_semi_major_axis, DAY.
  cbn [Np.mul Np.square Np.div].
  pose proof PI_RGT_0 as Hpi.
  assert (Hnum : 0 < r * G * (P * 86400 * (P * 86400))).
  { repeat apply Rmult_lt_0_compat; lra. }
  assert (Hq : 0 < r * G * (P * 86400 * (P * 86400)) / (3 * PI)).
  { apply Rdiv_lt_0_compat; lra. }
  rewrite (Reqb_neq (3 * PI) 0) by lra.
  cbn [Np.pow_third].
  rewrite Rltb_nlt by lra. rewrite Reqb_neq by lra.
  eexists. split; [|reflexivity]. unfold Rpower. apply exp_pos.
Qed.

Lemma G_cgs_pos : 0 < G_cgs.
Proof. unfold G_cgs. lra. Qed.

(** ** Slices of the parameter vector *)

Lemma firstn6_skipn (p : ndarray) (k : nat) :
  (k + 6 <= length p)%nat ->
  firstn 6 (skipn k p) =
  [param p k; param p (k + 1); param p (k + 2); param p (k + 3);
   param p (k + 4); param p (k + 5)].
Proof.
  revert p. induction k as [|k IH]; intros p Hlen.
  - do 6 (destruct p as [|? p]; [simpl in Hlen; lia|]). reflexivity.
  - destruct p as [|x p]; [simpl in Hlen; lia|].
    simpl in Hlen. simpl skipn. rewrite IH by lia. reflexivity.
Qed.

Lemma slice_candidate (p : ndarray) (i : nat) :
  (11 + i * 6 <= length p)%nat ->
  slice (5 + i * 6) (11 + i * 6) p =
  [param p (5 + i * 6); param p (6 + i * 6); param p (7 + i * 6);
   param p (8 + i * 6); param p (9 + i * 6); param p (10 + i * 6)].
Proof.
  intros Hlen. unfold slice.
  replace (11 + i * 6 - (5 + i * 6))%nat with 6%nat by lia.
  rewrite firstn6_skipn by lia.
  replace (5 + i * 6 + 1)%nat with (6 + i * 6)%nat by lia.
  replace (5 + i * 6 + 2)%nat with (7 + i * 6)%nat by lia.
  replace (5 + i * 6 + 3)%nat with (8 + i * 6)%nat by lia.
  replace (5 + i * 6 + 4)%nat with (9 + i * 6)%nat by lia.
  replace (5 + i * 6 + 5)%nat with (10 + i * 6)%nat by lia.
  reflexivity.
Qed.

Lemma firstn5_params (p : ndarray) :
  (5 <= length p)%nat ->
  firstn 5 p = [param p 0; param p 1; param p 2; param p 3; param p 4].
Proof.
  intros Hlen.
  do 5 (destruct p as [|? p]; [simpl in Hlen; lia|]). reflexivity.
Qed.

Section Properties.

Variable G : R.
Variable utils_t_folded : np_float -> np_float -> np_float -> np_float.
Variable lc_eval : ndarray -> ndarray -> np_float -> result ndarray.
Variable lc_save_hdf :
  LightCurve -> string -> string -> bool -> filesystem ->
  result unit * filesystem.
Variable lc_load_hdf :
  string -> string -> string -> filesystem -> result LightCurve * filesystem.

(** ** The flux model *)

Lemma mul_one (x : np_float) : Np.mul x (Finite 1) = x.
Proof.
  destruct x as [r| | |]; np_eval; try reflexivity.
  f_equal. lra.
Qed.

Lemma zip_orb_map (acc : list bool) (f g : np_float -> bool) (t : ndarray) :
  length acc = length t ->
  zip_with orb (zip_with orb acc (map f t)) (map g t) =
  zip_with orb acc (map (fun x => f x || g x) t).
Proof.
  revert t. induction acc as [|a acc IH]; intros [|x t] Hlen;
    try discriminate; [reflexivity|].
  simpl. rewrite IH by (simpl in Hlen; lia).
  rewrite orb_assoc. reflexivity.
Qed.

Lemma zip_orb_zeros (f : np_float -> bool) (t : ndarray) :
  zip_with orb (zeros_like_bool t) (map (fun x => f x || false) t) = map f t.
Proof.
  induction t as [|x t IH]; [reflexivity|].
  simpl. rewrite orb_false_r. f_equal. exact IH.
Qed.

Lemma length_zip_orb (a b : list bool) :
  length a = length b -> length (zip_with orb a b) = length a.
Proof.
  revert b. induction a as [|x a IH]; intros [|y b] H; try discriminate;
    [reflexivity|].
  simpl. f_equal. apply IH. simpl in H. lia.
Qed.

Lemma skipn_cons {A} (i : nat) (l : list A) (x : A) (rest : list A) :
  skipn i l = x :: rest -> l !! i = Some x /\ skipn (S i) l = rest.
Proof.
  revert l. induction i as [|i IH]; intros [|y l] H; try discriminate.
  - simpl in H. injection H as -> ->. split; reflexivity.
  - apply IH. exact H.
Qed.

(** The loop over the candidates [rest = planets[i0:]] adds their windows
    to the array. *)
Lemma close_loop_from (l : LightCurve) (w : np_float) (rest : list Planet) :
  forall (i0 : nat) (acc : list bool),
  skipn i0 (planets l) = rest ->
  length acc = length (LightCurveM.time l) ->
  close_loop utils_t_folded l w (seq i0 (length rest)) acc =
  Ok (zip_with orb acc
        (map (fun x =>
                existsb
                  (fun pl =>
                     Np.lt (Np.absolute (utils_t_folded x (period pl) (epoch pl)))
                           (Np.mul w (duration pl))) rest)
             (LightCurveM.time l))).
Proof.
  induction rest as [|pl rest IH]; intros i0 acc Hskip Hlen.
  - simpl. f_equal. clear Hskip. revert acc Hlen.
    induction (LightCurveM.time l) as [|x t IHt]; intros [|a acc] Hlen;
      try discriminate; [reflexivity|].
    simpl. rewrite orb_false_r. f_equal. apply IHt. simpl in Hlen. lia.
  - destruct (skipn_cons _ _ _ _ Hskip) as [Hpl Hrest].
    cbn [length seq close_loop].
    unfold LightCurveM.close, LightCurveM.t_close. rewrite Hpl.
    cbn [rbind]. unfold PlanetM.t_close, PlanetM.t_folded.
    rewrite map_map. unfold iadd_bool. rewrite length_map, Hlen, Nat.eqb_refl.
    cbn [rbind]. rewrite IH; [|exact Hrest|].
    + f_equal. rewrite zip_orb_map by exact Hlen. reflexivity.
    + rewrite length_zip_orb; [exact Hlen|]. rewrite length_map. exact Hlen.
Qed.

Lemma close_loop_near_mask (l : LightCurve) (w : np_float) :
  close_loop utils_t_folded l w (seq 0 (LightCurveM.n_planets l))
    (zeros_like_bool (LightCurveM.t l)) =
  Ok (near_mask utils_t_folded l w).
Proof.
  unfold LightCurveM.n_planets.
  rewrite (close_loop_from l w (planets l) 0); [|reflexivity|].
  - f_equal. unfold near_mask, near_transit, LightCurveM.t.
    induction (LightCurveM.time l) as [|x t IH]; [reflexivity|].
    simpl. f_equal. exact IH.
  - unfold zeros_like_bool. rewrite length_map. reflexivity.
Qed.

Lemma lookup_map_lt {A B} (f : A -> B) (l : list A) (k : nat) (d : A) :
  (k < length l)%nat -> map f l !! k = Some (f (nth k l d)).
Proof.
  revert k. induction l as [|x l IH]; intros [|k] Hk; simpl in *; try lia.
  - reflexivity.
  - apply IH. lia.
Qed.

Lemma length_select_count {A} (m : list bool) (a : list A) :
  length m = length a -> length (select m a) = count_true m.
Proof.
  revert a. induction m as [|b m IH]; intros [|x a] H; try discriminate;
    [reflexivity|].
  simpl in H. destruct b; simpl; rewrite IH by lia; reflexivity.
Qed.

Lemma length_scatter (f : ndarray) (close : list bool) (v : ndarray) :
  length (scatter f close v) = length f.
Proof.
  revert close v. induction f as [|x f IH]; intros [|c close] v;
    try reflexivity.
  destruct c; [destruct v|]; simpl; rewrite IH; reflexivity.
Qed.

(** Where the mask is false the entry stays; where it is true the entry is
    the value whose rank is the number of true entries before it. *)
Lemma scatter_lookup (f : ndarray) :
  forall (close : list bool) (v : ndarray) (k : nat),
  length close = length f ->
  (count_true close <= length v)%nat ->
  scatter f close v !! k =
  match close !! k with
  | Some true => v !! count_true (firstn k close)
  | _ => f !! k
  end.
Proof.
  induction f as [|x f IH]; intros [|c close] v k Hlen Hcnt;
    try discriminate.
  - destruct k; reflexivity.
  - simpl in Hlen, Hcnt. destruct c.
    + destruct v as [|y v]; [simpl in Hcnt; lia|]. simpl in Hcnt.
      destruct k as [|k]; [reflexivity|].
      simpl. apply IH; lia.
    + destruct k as [|k]; [reflexivity|].
      simpl. apply IH; lia.
Qed.

(** The value of [evaluate] when the external model answers with one flux
    per near-transit time. *)
Lemma evaluate_value (self : TransitModel) (p0 : np_float) (p' v : ndarray)
    (w : world) :
  let l := lc self in
  let close := near_mask utils_t_folded l (width self) in
  let times := select close (LightCurveM.time l) in
  lc_eval p' times (texp l) = Ok v ->
  length v = length times ->
  evaluate utils_t_folded lc_eval self (p0 :: p') w =
    (Ok (scatter (map (Np.mul p0) (ones_like (LightCurveM.t l))) close v),
     {| files := files w;
        calls := calls w ++ [CallLcEval p' times (texp l)] |}).
Proof.
  intros l close times Heval Hv.
  assert (Hcnt : length v = count_true close).
  { rewrite Hv. unfold times. apply length_select_count.
    unfold close, near_mask. apply length_map. }
  unfold evaluate. unfold_monad. cbn [index lookup list_lookup skipn].
  unfold continuum. cbn [index lookup list_lookup rbind].
  fold l. rewrite close_loop_near_mask. fold close.
  unfold LightCurveM.t. fold times. change (skipn 0 p') with p'.
  rewrite Heval.
  unfold mask_assign. rewrite Hcnt, Nat.eqb_refl. reflexivity.
Qed.

(** What the external model raises, [evaluate] raises. *)
Lemma evaluate_raises (self : TransitModel) (p0 : np_float) (p' : ndarray)
    (e : exn) (w : world) :
  let l := lc self in
  let close := near_mask utils_t_folded l (width self) in
  let times := select close (LightCurveM.time l) in
  lc_eval p' times (texp l) = Raise e ->
  evaluate utils_t_folded lc_eval self (p0 :: p') w =
    (Raise e,
     {| files := files w;
        calls := calls w ++ [CallLcEval p' times (texp l)] |}).
Proof.
  intros l close times Heval.
  unfold evaluate. unfold_monad. cbn [index lookup list_lookup skipn].
  unfold continuum. cbn [index lookup list_lookup rbind].
  fold l. rewrite close_loop_near_mask. fold close.
  unfold LightCurveM.t. fold times. change (skipn 0 p') with p'.
  rewrite Heval. reflexivity.
Qed.

Lemma Forall_scatter (P : np_float -> Prop) (f : ndarray) :
  forall (close : list bool) (v : ndarray),
  Forall P f -> Forall P v -> Forall P (scatter f close v).
Proof.
  induction f as [|x f IH]; intros [|c close] v Hf Hv; try exact Hf.
  inversion Hf as [|? ? Hx Hf']; subst.
  destruct c.
  - destruct v as [|y v]; cbn [scatter].
    + constructor; [exact Hx | apply IH; [exact Hf' | constructor]].
    + inversion Hv as [|? ? Hy Hv']; subst.
      constructor; [exact Hy | apply IH; assumption].
  - cbn [scatter]. constructor; [exact Hx | apply IH; assumption].
Qed.

(** C2.  For a parameter vector of the length the light curve asks for,
    [evaluate] calls the external transit model once, on the slice [p[1:]],
    the times near a transit of any candidate and the exposure time; when
    the model answers with one flux per time, the array returned has the
    length of the series, holds the continuum level [p[0]] at every index
    that is not near a transit, and at an index near a transit holds the
    model's flux for that time. *)
Theorem evaluate_continuum_and_transit (self : TransitModel) (p v : ndarray)
    (w : world) :
  let l := lc self in
  let close := near_mask utils_t_folded l (width self) in
  let times := select close (LightCurveM.time l) in
  length p = (5 + 6 * LightCurveM.n_planets l)%nat ->
  lc_eval (skipn 1 p) times (texp l) = Ok v ->
  length v = length times ->
  exists f,
    evaluate utils_t_folded lc_eval self p w =
      (Ok f, {| files := files w;
                calls := calls w ++ [CallLcEval (skipn 1 p) times (texp l)] |})
    /\ length f = length (LightCurveM.time l)
    /\ forall k, (k < length (LightCurveM.time l))%nat ->
         f !! k =
         if near_transit utils_t_folded l (width self)
              (nth k (LightCurveM.time l) NaN)
         then v !! count_true (firstn k close)
         else Some (param p 0).
Proof.
  intros l close times Hlen Heval Hv.
  destruct p as [|p0 p']; [simpl in Hlen; lia|].
  assert (Hclose : length close = length (LightCurveM.time l)).
  { unfold close, near_mask. apply length_map. }
  assert (Hcnt : length v = count_true close).
  { rewrite Hv. unfold times. apply length_select_count. exact Hclose. }
  exists (scatter (map (Np.mul p0) (ones_like (LightCurveM.t l))) close v).
  split; [|split].
  - apply evaluate_value; assumption.
  - rewrite length_scatter. unfold ones_like, LightCurveM.t.
    rewrite !length_map. reflexivity.
  - intros k Hk. rewrite scatter_lookup.
    + assert (Hck : close !! k =
                    Some (near_transit utils_t_folded l (width self)
                            (nth k (LightCurveM.time l) NaN))).
      { unfold close, near_mask. apply lookup_map_lt. exact Hk. }
      rewrite Hck.
      destruct (near_transit utils_t_folded l (width self)
                  (nth k (LightCurveM.time l) NaN)); [reflexivity|].
      unfold ones_like, LightCurveM.t. rewrite map_map.
      rewrite (lookup_map_lt _ _ _ NaN) by exact Hk.
      rewrite mul_one. reflexivity.
    + unfold ones_like, LightCurveM.t. rewrite !length_map. exact Hclose.
    + lia.
Qed.

(** ** The log-likelihood *)

Lemma finite_list (l : ndarray) :
  Forall (fun x => Np.isfinite x = true) l -> exists rs, l = map Finite rs.
Proof.
  induction 1 as [|x l Hx _ [rs ->]]; [exists []; reflexivity|].
  destruct x as [r| | |]; try discriminate.
  exists (r :: rs). reflexivity.
Qed.

Lemma finite_nonzero_list (l : ndarray) :
  Forall (fun x => finite_nonzero x = true) l ->
  exists rs, l = map Finite rs /\ Forall (fun r => r <> 0) rs.
Proof.
  induction 1 as [|x l Hx _ [rs [-> Hrs]]]; [exists []; split; constructor|].
  destruct x as [r| | |]; try discriminate.
  exists (r :: rs). split; [reflexivity|]. constructor; [|exact Hrs].
  simpl in Hx. apply negb_true_iff, Reqb_false in Hx. exact Hx.
Qed.

Lemma code_terms_eval (ms : list R) :
  forall os es : list R,
  length os = length ms -> length es = length ms ->
  Forall (fun r => r <> 0) es ->
  zip_with Np.div
    (map (Np.mul (Finite (-0.5)))
       (map Np.square (zip_with Np.sub (map Finite ms) (map Finite os))))
    (map Np.square (map Finite es)) =
  map Finite (code_terms ms os es).
Proof.
  induction ms as [|m ms IH]; intros [|o os] [|e es] Ho He Hnz;
    try discriminate; [reflexivity|].
  inversion Hnz as [|? ? Hne Hnz']; subst.
  simpl in Ho, He. cbn [map zip_with code_terms]. rewrite IH by (lia || assumption).
  f_equal. np_eval.
  rewrite (Reqb_neq (e * e) 0); [reflexivity|].
  intros H. apply Rmult_integral in H. tauto.
Qed.

Lemma sum_from (xs : list R) (acc : R) :
  fold_left Np.add (map Finite xs) (Finite acc) =
  Finite (fold_left Rplus xs acc).
Proof.
  revert acc. induction xs as [|x xs IH]; intros acc; [reflexivity|].
  simpl. apply IH.
Qed.

Lemma code_terms_sum (ms : list R) :
  forall (os es : list R) (acc : R),
  Forall (fun r => r <> 0) es ->
  fold_left Rplus (code_terms ms os es) acc = acc + -0.5 * chi2R ms os es.
Proof.
  induction ms as [|m ms IH]; intros [|o os] [|e es] acc Hnz;
    cbn [code_terms chi2R fold_left]; try lra.
  inversion Hnz as [|? ? Hne Hnz']; subst.
  rewrite IH by assumption. field. exact Hne.
Qed.

Lemma chi2_eval (ms : list R) :
  forall os es : list R,
  Forall (fun r => r <> 0) es ->
  chi2 (map Finite ms) (map Finite os) (map Finite es) =
  Finite (chi2R ms os es).
Proof.
  induction ms as [|m ms IH]; intros [|o os] [|e es] Hnz; try reflexivity.
  inversion Hnz as [|? ? Hne Hnz']; subst.
  cbn [map chi2 chi2R]. rewrite IH by assumption. np_eval. reflexivity.
Qed.

Lemma evaluate_length (self : TransitModel) (p f : ndarray) (w w' : world) :
  evaluate utils_t_folded lc_eval self p w = (Ok f, w') ->
  length f = length (LightCurveM.time (lc self)).
Proof.
  unfold evaluate. unfold_monad.
  destruct (index p 0) as [p0|]; [|discriminate].
  unfold continuum. cbn [index lookup list_lookup rbind].
  rewrite close_loop_near_mask.
  destruct (lc_eval _ _ _) as [v|]; [|discriminate].
  unfold mask_assign.
  destruct (Nat.eqb _ _).
  - intros H. injection H as <- _. rewrite length_scatter.
    unfold ones_like, LightCurveM.t. rewrite !length_map. reflexivity.
  - destruct v as [|y [|? ?]]; try discriminate.
    intros H. injection H as <- _. rewrite length_scatter.
    unfold ones_like, LightCurveM.t. rewrite !length_map. reflexivity.
Qed.

Lemma length_unmasked (l : LightCurve) :
  lc_wf l ->
  length (LightCurveM.flux l) = length (LightCurveM.time l) /\
  length (LightCurveM.flux_err l) = length (LightCurveM.time l).
Proof.
  intros (Ht & _ & He & Hd).
  unfold LightCurveM.flux, LightCurveM.flux_err, LightCurveM.time.
  rewrite !length_select_count by (rewrite length_map; congruence).
  split; reflexivity.
Qed.


(** ** The log-prior *)

(** With an eccentricity in [0,1), the scaled impact parameter of the
    specification is above 1 only if the one [lnprior] computes is. *)
Lemma scaled_impact_code (rhostar period b e w : np_float) :
  Np.le (Finite 0) e && Np.lt e (Finite 1) = true ->
  Np.gt (scaled_impact G rhostar period b e w) (Finite 1) = true ->
  Np.gt
    (Np.div
       (Np.mul b
          (if Np.gt e (Finite 0)
           then Np.div (Np.add (Finite 1) (Np.mul e (Np.sin w)))
                       (Np.sub (Finite 1) (Np.mul e e))
           else Finite 1))
       (scaled_semi_major_axis G rhostar period))
    (Finite 1) = true.
Proof.
  intros He Harg. unfold scaled_impact in Harg.
  destruct e as [r| | |]; simpl in He; try discriminate.
  apply andb_true_iff in He as [H0 H1].
  apply Rleb_true in H0. apply Rltb_true in H1.
  change (Np.gt (Finite r) (Finite 0)) with (Np.Rltb 0 r).
  destruct (Np.Rltb 0 r) eqn:Hpos; [exact Harg|].
  apply Rltb_false in Hpos. assert (r = 0) by lra. subst r.
  destruct w as [s| | |]; simpl Np.sin in Harg.
  - replace (Np.div (Np.add (Finite 1)
                              (Np.mul (Finite 0) (Finite (Rtrigo_def.sin s))))
                    (Np.sub (Finite 1) (Np.mul (Finite 0) (Finite 0))))
      with (Finite 1) in Harg; [exact Harg|].
    simpl. Rcases; try lra. f_equal. field.
  - destruct b; discriminate Harg.
  - destruct b; discriminate Harg.
  - destruct b; discriminate Harg.
Qed.

Lemma lnprior_loop_invalid (p : ndarray) (pls : list Planet) :
  forall (i0 : nat) (tot : np_float),
  (5 + (i0 + length pls) * 6 <= length p)%nat ->
  (exists j, (j < length pls)%nat /\ candidate_invalid G p (i0 + j) = true) ->
  lnprior_loop G p (param p 1) pls i0 tot = Ok NInf.
Proof.
  induction pls as [|pl pls IH]; intros i0 tot Hlen [j [Hj Hbad]].
  - simpl in Hj. lia.
  - simpl length in Hlen, Hj.
    cbn [lnprior_loop]. rewrite slice_candidate by lia. cbv beta iota.
    fold (scaled_semi_major_axis G (param p 1) (param p (5 + i0 * 6))).
    destruct (Np.gt _ (Finite 1)) eqn:Harg; [reflexivity|].
    destruct (Np.le (param p (5 + i0 * 6)) (Finite 0)) eqn:Hper; [reflexivity|].
    destruct (Np.le (Finite 0) (param p (9 + i0 * 6))
              && Np.lt (param p (9 + i0 * 6)) (Finite 1)) eqn:He;
      [|reflexivity].
    destruct (Np.lt (param p (7 + i0 * 6)) (Finite 0)) eqn:Hb; [reflexivity|].
    destruct (Np.le (param p (8 + i0 * 6)) (Finite 0)) eqn:Hr; [reflexivity|].
    cbn [negb].
    destruct (_period pl) as [prior_p prior_p_err].
    destruct (_epoch pl) as [prior_ep prior_ep_err].
    destruct j as [|j].
    + exfalso. replace (i0 + 0)%nat with i0 in Hbad by lia.
      unfold candidate_invalid in Hbad. cbv zeta in Hbad.
      rewrite Hper, He, Hb, Hr in Hbad. cbn [negb orb] in Hbad.
      apply scaled_impact_code in Hbad; [|exact He].
      rewrite Hbad in Harg. discriminate.
    + apply IH; [lia|]. exists j. split; [lia|].
      replace (S i0 + j)%nat with (i0 + S j)%nat by lia. exact Hbad.
Qed.

(** C3.  For a parameter vector of the length the light curve asks for,
    [lnprior] returns minus infinity as soon as a limb-darkening coefficient
    lies outside [0,1], the stellar density is negative, the dilution lies
    outside [0,1), or some candidate has a period <= 0, an eccentricity
    outside [0,1), a negative impact parameter, a radius ratio <= 0 or a
    scaled impact parameter above 1. *)
Theorem lnprior_impossible (self : TransitModel) (p : ndarray) :
  length p = (5 + 6 * LightCurveM.n_planets (lc self))%nat ->
  star_invalid p = true \/
  (exists i, (i < LightCurveM.n_planets (lc self))%nat /\
             candidate_invalid G p i = true) ->
  lnprior G self p = Ok NInf.
Proof.
  intros Hlen Hbad. unfold lnprior.
  rewrite firstn5_params by lia.
  destruct (Np.le (Finite 0) (param p 2) && Np.le (param p 2) (Finite 1))
    eqn:Hq1; [|reflexivity].
  destruct (Np.le (Finite 0) (param p 3) && Np.le (param p 3) (Finite 1))
    eqn:Hq2; [|reflexivity].
  destruct (Np.lt (param p 1) (Finite 0)) eqn:Hrho; [reflexivity|].
  destruct (Np.le (Finite 0) (param p 4) && Np.lt (param p 4) (Finite 1))
    eqn:Hdil; [|reflexivity].
  cbn [andb negb].
  destruct Hbad as [Hstar | [i [Hi Hcand]]].
  - unfold star_invalid in Hstar. cbv zeta in Hstar.
    rewrite Hq1, Hq2, Hrho, Hdil in Hstar. discriminate.
  - apply lnprior_loop_invalid.
    + unfold LightCurveM.n_planets in Hlen. lia.
    + exists i. split; [exact Hi | exact Hcand].
Qed.

Lemma lnprior_loop_accepted (p : ndarray) (pls : list Planet) :
  forall (i0 : nat) (tot : np_float),
  (5 + (i0 + length pls) * 6 <= length p)%nat ->
  (forall j, (j < length pls)%nat -> candidate_accepted G p (i0 + j) = true) ->
  lnprior_loop G p (param p 1) pls i0 tot = Ok (prior_sum p pls i0 tot).
Proof.
  induction pls as [|pl pls IH]; intros i0 tot Hlen Hok; [reflexivity|].
  simpl length in Hlen, Hok.
  pose proof (Hok 0%nat ltac:(lia)) as H0.
  replace (i0 + 0)%nat with i0 in H0 by lia.
  unfold candidate_accepted, impact_arg in H0. cbv zeta in H0.
  repeat (apply andb_true_iff in H0; destruct H0 as [H0 ?]).
  cbn [lnprior_loop prior_sum]. rewrite slice_candidate by lia. cbv beta iota.
  fold (scaled_semi_major_axis G (param p 1) (param p (5 + i0 * 6))).
  repeat match goal with
         | H : negb ?c = true |- _ => apply negb_true_iff in H; rewrite H
         end.
  match goal with
  | H : _ && _ = true |- _ => rewrite H
  end.
  cbn [negb].
  destruct (_period pl) as [prior_p prior_p_err].
  destruct (_epoch pl) as [prior_ep prior_ep_err].
  cbn [fst snd]. unfold prior_term.
  apply IH; [lia|]. intros j Hj.
  replace (S i0 + j)%nat with (i0 + S j)%nat by lia. apply Hok. lia.
Qed.

(** What the code returns on a vector that passes every test of [lnprior]:
    the sum, over the candidates, of [-0.5*(period - prior_p)/prior_p_err**2],
    of the same term for the epoch, and of [log(1/rprs)]. *)
Lemma lnprior_accepted_value (self : TransitModel) (p : ndarray) :
  length p = (5 + 6 * LightCurveM.n_planets (lc self))%nat ->
  star_invalid p = false ->
  (forall i, (i < LightCurveM.n_planets (lc self))%nat ->
             candidate_accepted G p i = true) ->
  lnprior G self p = Ok (prior_sum p (planets (lc self)) 0 (Finite 0)).
Proof.
  intros Hlen Hstar Hok. unfold lnprior.
  rewrite firstn5_params by lia.
  unfold star_invalid in Hstar. cbv zeta in Hstar.
  apply orb_false_iff in Hstar as [Hstar Hdil].
  apply orb_false_iff in Hstar as [Hstar Hrho].
  apply orb_false_iff in Hstar as [Hq1 Hq2].
  apply negb_false_iff in Hq1, Hq2, Hdil.
  rewrite Hq1, Hq2, Hrho, Hdil. cbn [andb negb].
  apply lnprior_loop_accepted.
  - unfold LightCurveM.n_planets in Hlen. lia.
  - intros j Hj. apply Hok. exact Hj.
Qed.

(** ** The log-posterior *)

(** The log is sound: [evaluate] only appends to it, and every entry into
    [lnlike] leaves its mark there. *)
Lemma evaluate_appends (self : TransitModel) (p : ndarray) (w : world) :
  exists rest,
    calls (snd (evaluate utils_t_folded lc_eval self p w)) = (calls w ++ rest)%list.
Proof.
  unfold evaluate. unfold_monad.
  destruct (index p 0) as [p0|]; [|exists []; symmetry; apply app_nil_r].
  destruct (continuum _ _); [|exists []; symmetry; apply app_nil_r].
  destruct (close_loop _ _ _ _ _); [|exists []; symmetry; apply app_nil_r].
  destruct (lc_eval _ _ _); eexists; reflexivity.
Qed.

Lemma lnlike_is_logged (self : TransitModel) (p : ndarray) (w : world) :
  exists rest,
    calls (snd (lnlike utils_t_folded lc_eval self p w))
    = (calls w ++ CallLnlike p :: rest)%list.
Proof.
  unfold lnlike. unfold bind at 1. unfold log_call, try_except.
  destruct (evaluate_appends self p
              {| files := files w; calls := calls w ++ [CallLnlike p] |})
    as [rest Hrest].
  exists rest.
  destruct (evaluate _ _ _ _ _) as [[model|e] w2]; cbn [snd calls] in Hrest.
  - unfold_monad.
    destruct (broadcast2 Np.sub _ _); [destruct (broadcast2 Np.div _ _)|];
      cbn [snd]; rewrite Hrest, <- app_assoc; reflexivity.
  - destruct (exn_eqb e InvalidParameterError); cbn [snd ret];
      rewrite Hrest, <- app_assoc; reflexivity.
Qed.

(** C1.  When the prior is not finite, [lnpost] returns it and the world,
    with its log of calls, is as before: the likelihood has not been
    entered, and replacing it by any other method (one that raises, say)
    changes nothing.  When the prior is finite, [lnpost] runs the likelihood
    and returns the sum of the two (or raises what the likelihood raises). *)
Theorem lnpost_short_circuit (self : TransitModel) (p : ndarray)
    (prior : np_float) (w : world) :
  lnprior G self p = Ok prior ->
  (Np.isfinite prior = false ->
     lnpost G utils_t_folded lc_eval self p w = (Ok prior, w) /\
     forall stub : ndarray -> M np_float,
       lnpost_with (fun q => lift (lnprior G self q)) stub p w = (Ok prior, w))
  /\
  (Np.isfinite prior = true ->
     lnpost G utils_t_folded lc_eval self p w =
       match lnlike utils_t_folded lc_eval self p w with
       | (Ok like, w') => (Ok (Np.add prior like), w')
       | (Raise e, w') => (Raise e, w')
       end).
Proof.
  intros Hprior. split.
  - intros Hinf. split; [|intros stub];
      unfold lnpost, lnpost_with; unfold_monad;
      rewrite Hprior, Hinf; reflexivity.
  - intros Hfin.
    unfold lnpost, lnpost_with. unfold bind at 1. unfold lift at 1.
    rewrite Hprior, Hfin. unfold bind, ret.
    destruct (lnlike utils_t_folded lc_eval self p w) as [[like|e] w'];
      reflexivity.
Qed.

(** ** The samples accessor *)

Lemma column_ok (chain : ndarray2) (j : nat) :
  (j < ncols chain)%nat ->
  column chain j = Ok (map (fun r => nth j r NaN) (rows chain)).
Proof.
  intros Hj. unfold column.
  destruct (Nat.ltb_spec j (ncols chain)); [reflexivity | lia].
Qed.

Lemma make_planet_columns_ok (chain : ndarray2) (i : nat) (pars : list string) :
  forall (j : nat) (df : DataFrame),
  (5 + (j + length pars) + i * 6 <= ncols chain)%nat ->
  exists df', make_planet_columns chain i pars j df = Ok df'.
Proof.
  induction pars as [|par pars IH]; intros j df Hlen.
  - exists df. reflexivity.
  - simpl length in Hlen. cbn [make_planet_columns].
    rewrite column_ok by lia. cbn [rbind]. apply IH. lia.
Qed.

Lemma make_columns_ok (chain : ndarray2) (idx : list nat) :
  forall df : DataFrame,
  Forall (fun i => (11 + i * 6 <= ncols chain)%nat) idx ->
  exists df', make_columns chain idx df = Ok df'.
Proof.
  induction idx as [|i idx IH]; intros df Hall.
  - exists df. reflexivity.
  - inversion Hall as [|? ? Hi Hall']; subst. cbn [make_columns].
    destruct (make_planet_columns_ok chain i planet_params 0 df) as [df1 ->].
    { simpl. lia. }
    cbn [rbind]. apply IH. exact Hall'.
Qed.

(** With a chain of at least as many columns as parameters, the derivation
    of the table succeeds; it is logged once and changes nothing but the
    cache. *)
Lemma make_samples_ok (self : TransitModel) (s : Sampler) (w : world) :
  sampler self = Some s ->
  (5 + 6 * LightCurveM.n_planets (lc self) <= ncols (flatchain s))%nat ->
  exists df,
    _make_samples self w =
      (Ok (set_samples self (Some df)),
       {| files := files w; calls := calls w ++ [CallMakeSamples] |}).
Proof.
  intros Hs Hcols. unfold _make_samples. unfold_monad. rewrite Hs.
  rewrite !column_ok by lia.
  match goal with
  | |- context [make_columns ?c ?idx ?df] =>
      destruct (make_columns_ok c idx df) as [df' ->]
  end.
  - apply List.Forall_forall. intros i Hi. apply in_seq in Hi. lia.
  - exists df'. reflexivity.
Qed.

Lemma count_derivations_app (l1 l2 : list call) :
  count_derivations (l1 ++ l2) = (count_derivations l1 + count_derivations l2)%nat.
Proof.
  induction l1 as [|c l1 IH]; [reflexivity|].
  destruct c; simpl; rewrite IH; reflexivity.
Qed.

Lemma samples_with_sampler (self : TransitModel) (s : Sampler) :
  sampler self = Some s ->
  samples self =
  match _samples self with
  | Some df => ret (Some df, self)
  | None => self' <- _make_samples self ;; ret (_samples self', self')
  end.
Proof. intros Hs. unfold samples. rewrite Hs. reflexivity. Qed.


(** C8.  On a model without a sampler and without cached samples, reading
    [samples] raises the attribute error at once; the world is untouched. *)
Theorem samples_before_fit_raises (self : TransitModel) (w : world) :
  sampler self = None ->
  _samples self = None ->
  samples self w = (Raise AttributeError, w).
Proof.
  intros Hs Hc. unfold samples. rewrite Hs, Hc. reflexivity.
Qed.

(** ** Persistence *)

Lemma raise_other {A B} (e : exn) :
  @Raise A e <> Raise IOError -> @Raise B e <> Raise IOError.
Proof. intros H H'. apply H. injection H' as ->. reflexivity. Qed.

Lemma no_io_ret {A} (a : A) : no_ioerror (ret a).
Proof. intros w. discriminate. Qed.

Lemma no_io_raise {A} (e : exn) : e <> IOError -> no_ioerror (@raise A e).
Proof. intros He w. simpl. congruence. Qed.

Lemma no_io_lift {A} (r : result A) : r <> Raise IOError -> no_ioerror (lift r).
Proof. intros Hr w. exact Hr. Qed.

Lemma no_io_bind {A B} (m : M A) (k : A -> M B) :
  no_ioerror m -> (forall a, no_ioerror (k a)) -> no_ioerror (bind m k).
Proof.
  intros Hm Hk w. unfold bind. specialize (Hm w).
  destruct (m w) as [[a|e] w']; [apply Hk|].
  simpl in *. exact (raise_other _ Hm).
Qed.

Lemma column_no_io (chain : ndarray2) (j : nat) :
  column chain j <> Raise IOError.
Proof. unfold column. destruct (Nat.ltb _ _); discriminate. Qed.

Lemma make_planet_columns_no_io (chain : ndarray2) (i : nat)
    (pars : list string) :
  forall (j : nat) (df : DataFrame),
  make_planet_columns chain i pars j df <> Raise IOError.
Proof.
  induction pars as [|par pars IH]; intros j df; [discriminate|].
  cbn [make_planet_columns].
  pose proof (column_no_io chain (5 + j + i * 6)) as Hc.
  destruct (column chain (5 + j + i * 6)); cbn [rbind];
    [apply IH | exact (raise_other _ Hc)].
Qed.

Lemma make_columns_no_io (chain : ndarray2) (idx : list nat) :
  forall df : DataFrame, make_columns chain idx df <> Raise IOError.
Proof.
  induction idx as [|i idx IH]; intros df; [discriminate|].
  cbn [make_columns].
  pose proof (make_planet_columns_no_io chain i planet_params 0 df) as Hc.
  destruct (make_planet_columns chain i planet_params 0 df); cbn [rbind];
    [apply IH | exact (raise_other _ Hc)].
Qed.

Lemma samples_no_io (self : TransitModel) : no_ioerror (samples self).
Proof.
  unfold samples.
  destruct (negb _ && negb _); [apply no_io_raise; discriminate|].
  destruct (_samples self); [apply no_io_ret|].
  apply no_io_bind; [|intros; apply no_io_ret].
  unfold _make_samples.
  apply no_io_bind; [intros w; discriminate|]. intros _.
  apply no_io_bind.
  { destruct (sampler self); [apply no_io_ret | apply no_io_raise; discriminate]. }
  intros s.
  repeat (apply no_io_bind; [apply no_io_lift, column_no_io|]; intros ?).
  apply no_io_bind; [apply no_io_lift, make_columns_no_io|].
  intros; apply no_io_ret.
Qed.

Lemma open_store_no_io (filename : string) : no_ioerror (open_store filename).
Proof.
  unfold open_store. apply no_io_bind; [intros w; discriminate|].
  intros fs. destruct (fs !! filename); [apply no_io_ret|].
  apply no_io_bind; [intros w; discriminate|]. intros; apply no_io_ret.
Qed.

Lemma to_hdf_no_io (df : option DataFrame) (filename key : string) :
  no_ioerror (to_hdf df filename key).
Proof.
  unfold to_hdf. destruct df; [|apply no_io_raise; discriminate].
  apply no_io_bind; [apply open_store_no_io|]. intros store.
  apply no_io_bind; intros w; discriminate.
Qed.

Lemma set_attrs_no_io (filename key : string) (a : node_attrs) :
  no_ioerror (set_attrs filename key a).
Proof.
  unfold set_attrs, get_storer.
  apply no_io_bind.
  { apply no_io_bind; [apply open_store_no_io|]. intros store.
    destruct (store !! norm_key key);
      [apply no_io_ret | apply no_io_raise; discriminate]. }
  intros node. apply no_io_bind; [apply open_store_no_io|]. intros store.
  apply no_io_bind; intros w; discriminate.
Qed.

Lemma save_hdf_check_spec (filename path : string) (overwrite append : bool)
    (w : world) :
  save_hdf_check filename path overwrite append w =
  if conflict (files w) filename path then
    if overwrite
    then (Ok tt, {| files := delete filename (files w); calls := calls w |})
    else if append then (Ok tt, w) else (Raise IOError, w)
  else (Ok tt, w).
Proof.
  unfold save_hdf_check, conflict. unfold_monad.
  destruct (files w !! filename) as [store|]; [|reflexivity].
  destruct (store_contains store path); [|reflexivity].
  destruct overwrite; [reflexivity|]. destruct append; reflexivity.
Qed.

(** Reading [samples] leaves the files alone. *)
Lemma samples_files (self : TransitModel) (w w' : world)
    (r : result (option DataFrame * TransitModel)) :
  samples self w = (r, w') -> files w' = files w.
Proof.
  unfold samples, _make_samples. unfold_monad.
  destruct (negb _ && negb _); [intros H; inversion H; reflexivity|].
  destruct (_samples self); [intros H; inversion H; reflexivity|].
  destruct (sampler self) as [s|]; [|intros H; inversion H; reflexivity].
  repeat match goal with
         | |- context [match column ?c ?j with _ => _ end] =>
             destruct (column c j)
         | |- context [match make_columns ?c ?i ?d with _ => _ end] =>
             destruct (make_columns c i d)
         end;
    intros H; inversion H; reflexivity.
Qed.

(** When [samples] yields a table, the second part of [save_hdf] puts the
    node of the samples into the file (a new one when there is none) and
    hands over to the saver of the light curve. *)
Lemma save_hdf_write_value (self self' : TransitModel) (df : DataFrame)
    (filename path : string) (w w' : world) :
  samples self w = (Ok (Some df, self'), w') ->
  save_hdf_write lc_save_hdf self filename path w =
  match
    lc_save_hdf (lc self') filename path true
      (<[filename :=
           <[samples_key path := samples_node self' df]>
             (default ∅ (files w !! filename))]> (files w))
  with
  | (Ok _, fs2) => (Ok self', {| files := fs2; calls := calls w' |})
  | (Raise e, fs2) => (Raise e, {| files := fs2; calls := calls w' |})
  end.
Proof.
  intros Hs. rewrite <- (samples_files _ _ _ _ Hs).
  unfold save_hdf_write. unfold bind at 1. rewrite Hs. cbn [fst snd].
  unfold to_hdf, set_attrs, get_storer, open_store, run_lc_save_hdf.
  unfold_monad. fold (samples_key path). unfold samples_node.
  destruct (files w' !! filename) as [store|] eqn:Hfile; cbn [files calls default];
    rewrite ?Hfile; cbn [files calls];
    rewrite ?lookup_insert_eq; cbn [files calls];
    rewrite ?lookup_insert_eq; cbn [files calls node_frame];
    rewrite ?insert_insert_eq;
    destruct (lc_save_hdf _ _ _ _ _) as [[[]|e] fs2]; reflexivity.
Qed.

Lemma samples_of_cache (self : TransitModel) (df : DataFrame) (w : world) :
  _samples self = Some df -> samples self w = (Ok (Some df, self), w).
Proof.
  intros Hdf. unfold samples. rewrite Hdf, andb_false_r. reflexivity.
Qed.

Lemma save_hdf_write_cached (self : TransitModel) (df : DataFrame)
    (filename path : string) (w : world) :
  _samples self = Some df ->
  save_hdf_write lc_save_hdf self filename path w =
  match
    lc_save_hdf (lc self) filename path true
      (<[filename :=
           <[samples_key path := samples_node self df]>
             (default ∅ (files w !! filename))]> (files w))
  with
  | (Ok _, fs2) => (Ok self, {| files := fs2; calls := calls w |})
  | (Raise e, fs2) => (Raise e, {| files := fs2; calls := calls w |})
  end.
Proof.
  intros Hdf. apply save_hdf_write_value. apply samples_of_cache. exact Hdf.
Qed.

Lemma save_hdf_write_no_io (self : TransitModel) (filename path : string) :
  (forall l f p a fs, fst (lc_save_hdf l f p a fs) <> Raise IOError) ->
  no_ioerror (save_hdf_write lc_save_hdf self filename path).
Proof.
  intros Hext. unfold save_hdf_write.
  apply no_io_bind; [apply samples_no_io|]. intros r.
  apply no_io_bind; [apply to_hdf_no_io|]. intros _.
  apply no_io_bind; [apply set_attrs_no_io|]. intros _.
  apply no_io_bind; [|intros; apply no_io_ret].
  intros w0. unfold run_lc_save_hdf.
  specialize (Hext (lc (snd r)) filename path true (files w0)).
  destruct (lc_save_hdf _ _ _ _ _) as [res fs']. exact Hext.
Qed.

(** C7.  Provided the saver of the light curve raises no [IOError] of its
    own, [save_hdf] raises [IOError] exactly when the file exists, the path
    exists within it, and neither [overwrite] nor [append] is set.  With
    [overwrite] set on an existing path, the file is removed first: when the
    model yields its samples, they are written into a new file that holds
    nothing else, and the call succeeds when the saver of the light curve
    does. *)
Theorem save_hdf_conflict (self : TransitModel) (filename path : string)
    (overwrite append : bool) (w : world) :
  (forall l f p a fs, fst (lc_save_hdf l f p a fs) <> Raise IOError) ->
  ((exists w', save_hdf lc_save_hdf self filename path overwrite append w
               = (Raise IOError, w'))
   <-> (conflict (files w) filename path = true
        /\ overwrite = false /\ append = false))
  /\
  (forall df self' w' fs2,
     conflict (files w) filename path = true ->
     overwrite = true ->
     samples self {| files := delete filename (files w); calls := calls w |}
       = (Ok (Some df, self'), w') ->
     lc_save_hdf (lc self') filename path true
       (<[filename := {[samples_key path := samples_node self' df]}]> (files w))
       = (Ok tt, fs2) ->
     save_hdf lc_save_hdf self filename path overwrite append w
       = (Ok self', {| files := fs2; calls := calls w' |})).
Proof.
  intros Hext. split; [split|].
  - intros [w' Hsave]. unfold save_hdf in Hsave. unfold bind in Hsave.
    rewrite save_hdf_check_spec in Hsave.
    pose proof (save_hdf_write_no_io self filename path Hext) as Hno.
    destruct (conflict (files w) filename path);
      [destruct overwrite; [|destruct append; [|auto]]|];
      match type of Hsave with
      | save_hdf_write _ _ _ _ ?w0 = _ =>
          specialize (Hno w0); rewrite Hsave in Hno; contradiction Hno;
          reflexivity
      end.
  - intros (Hc & -> & ->). exists w. unfold save_hdf. unfold bind.
    rewrite save_hdf_check_spec, Hc. reflexivity.
  - intros df self' w' fs2 Hc -> Hdf Hlc. unfold save_hdf. unfold bind.
    rewrite save_hdf_check_spec, Hc.
    rewrite (save_hdf_write_value self self' df _ _ _ w') by exact Hdf.
    cbn [files calls]. rewrite lookup_delete_eq. cbn [default].
    rewrite insert_delete_eq. rewrite insert_empty. rewrite Hlc. reflexivity.
Qed.

(** C6.  A model with a populated sample table is saved (the path being
    free, or [overwrite] or [append] being set).  When the saver of the
    light curve succeeds and leaves the node of the samples in place, and
    the loader of the light curve succeeds, [load_hdf] on the same file and
    path returns a model with the same table (names and values of the
    columns), the same width and the same continuum method, whose light
    curve is the one the loader of the saved light-curve type returns. *)
Theorem save_load_roundtrip (self : TransitModel) (df : DataFrame)
    (filename path : string) (overwrite append : bool) (w : world)
    (fs2 fs3 : filesystem) (store2 : hdf_file) (lc' : LightCurve) :
  let fs0 := if conflict (files w) filename path && overwrite
             then delete filename (files w) else files w in
  let fs1 := <[filename :=
                 <[samples_key path := samples_node self df]>
                   (default ∅ (fs0 !! filename))]> fs0 in
  _samples self = Some df ->
  (conflict (files w) filename path = true ->
   overwrite = true \/ append = true) ->
  lc_save_hdf (lc self) filename path true fs1 = (Ok tt, fs2) ->
  fs2 !! filename = Some store2 ->
  store2 !! samples_key path = Some (samples_node self df) ->
  lc_load_hdf (lc_class (lc self)) filename path fs2 = (Ok lc', fs3) ->
  exists w1 w2 loaded,
    save_hdf lc_save_hdf self filename path overwrite append w = (Ok self, w1)
    /\ load_hdf lc_load_hdf filename path w1 = (Ok loaded, w2)
    /\ _samples loaded = Some df
    /\ width loaded = width self
    /\ continuum_method loaded = continuum_method self
    /\ lc loaded = lc'
    /\ samples loaded w2 = (Ok (Some df, loaded), w2).
Proof.
  intros fs0 fs1 Hdf Hpol Hsave Hfile Hnode Hload.
  exists {| files := fs2; calls := calls w |},
         {| files := fs3; calls := calls w |},
         (set_samples (init lc' (width self) (continuum_method self)) (Some df)).
  split; [|split; [|repeat split]].
  - unfold save_hdf. unfold bind. rewrite save_hdf_check_spec.
    unfold fs1, fs0 in Hsave.
    destruct (conflict (files w) filename path).
    + destruct overwrite; cbn [andb] in Hsave.
      * rewrite (save_hdf_write_cached self df) by exact Hdf.
        cbn [files calls]. rewrite Hsave. reflexivity.
      * destruct append; [|destruct (Hpol eq_refl); discriminate].
        rewrite (save_hdf_write_cached self df) by exact Hdf.
        rewrite Hsave. reflexivity.
    + cbn [andb] in Hsave.
      rewrite (save_hdf_write_cached self df) by exact Hdf.
      rewrite Hsave. reflexivity.
  - unfold load_hdf, open_store, get_attr, run_lc_load_hdf. unfold_monad.
    cbn [files calls]. rewrite Hfile. fold (samples_key path).
    rewrite Hnode. cbn [samples_node node_attrs_of node_frame attr_width
                        attr_continuum_method attr_lc_type files calls].
    rewrite Hload. reflexivity.
Qed.

End Properties.

(** ** The log-prior at sample vectors *)

Lemma lnprior_p_bad_q1 : lnprior G_cgs model1 p_bad_q1 = Ok NInf.
Proof. unfold lnprior. cbn [firstn p_bad_q1]. np_eval. reflexivity. Qed.

Lemma lnprior_p_low : lnprior G_cgs model1 p_low = Ok (Finite (1 / 2)).
Proof.
  destruct (semi_major_axis_pos G_cgs 1 2 G_cgs_pos ltac:(lra) ltac:(lra))
    as [a [Ha Heq]].
  unfold lnprior. cbn [firstn p_low]. np_eval.
  cbn [model1 init lc lc1 planets lnprior_loop].
  unfold slice. cbn [Nat.add Nat.mul Nat.sub skipn firstn p_low].
  fold (scaled_semi_major_axis G_cgs (Finite 1) (Finite 2)).
  rewrite Heq. np_eval. cbn [planet1 _period _epoch]. np_eval.
  do 2 f_equal. replace (1 / 1) with 1 by lra. rewrite ln_1. lra.
Qed.

(** C4 (the code departs from the claim).  At [p_low], a vector that passes
    every test of [lnprior], the code returns 1/2: its period term is
    [-0.5*(2 - 3)/1**2], linear in the offset from the discovery period.
    The specification's Gaussian terms give -1/2 there. *)
Theorem lnprior_period_term_not_gaussian :
  star_invalid p_low = false /\
  candidate_invalid G_cgs p_low 0 = false /\
  lnprior G_cgs model1 p_low = Ok (Finite (1 / 2)) /\
  gaussian_prior p_low (planets (lc model1)) 0 = Finite (- (1 / 2)).
Proof.
  destruct (semi_major_axis_pos G_cgs 1 2 G_cgs_pos ltac:(lra) ltac:(lra))
    as [a [Ha Heq]].
  split; [|split; [|split]].
  - unfold star_invalid, param. cbn [nth p_low]. np_eval. reflexivity.
  - unfold candidate_invalid, scaled_impact, param.
    cbn [nth p_low Nat.add Nat.mul]. rewrite Heq. np_eval. reflexivity.
  - exact lnprior_p_low.
  - cbn [model1 init lc lc1 planets gaussian_prior]. unfold gaussian_term, param.
    cbn [nth p_low Nat.add Nat.mul planet1 _period _epoch fst snd]. np_eval.
    f_equal. rewrite ln_1. lra.
Qed.

(** ** The properties at the sample data *)

Lemma lnpost_short_circuit_witness :
  (lnprior G_cgs model1 p_bad_q1 = Ok NInf /\
   lnpost G_cgs toy_t_folded toy_lc_eval model1 p_bad_q1 world0
     = (Ok NInf, world0))
  /\
  (lnprior G_cgs model1 p_low = Ok (Finite (1 / 2)) /\
   lnpost G_cgs toy_t_folded toy_lc_eval model1 p_low world0 =
     match lnlike toy_t_folded toy_lc_eval model1 p_low world0 with
     | (Ok like, w') => (Ok (Np.add (Finite (1 / 2)) like), w')
     | (Raise e, w') => (Raise e, w')
     end).
Proof.
  split; (split; [first [exact lnprior_p_bad_q1 | exact lnprior_p_low]|]).
  - destruct (lnpost_short_circuit G_cgs toy_t_folded toy_lc_eval model1
                p_bad_q1 NInf world0 lnprior_p_bad_q1) as [Hinf _].
    destruct (Hinf eq_refl) as [H _]. exact H.
  - destruct (lnpost_short_circuit G_cgs toy_t_folded toy_lc_eval model1
                p_low (Finite (1 / 2)) world0 lnprior_p_low) as [_ Hfin].
    exact (Hfin eq_refl).
Defined.

Lemma lnprior_impossible_witness :
  length p_bad_q1 = (5 + 6 * LightCurveM.n_planets (lc model1))%nat /\
  star_invalid p_bad_q1 = true /\
  lnprior G_cgs model1 p_bad_q1 = Ok NInf.
Proof.
  assert (Hstar : star_invalid p_bad_q1 = true).
  { unfold star_invalid, param. cbn [nth p_bad_q1]. np_eval. reflexivity. }
  split; [reflexivity|]. split; [exact Hstar|].
  apply (lnprior_impossible G_cgs model1 p_bad_q1); [reflexivity|].
  left. exact Hstar.
Defined.

Lemma samples_before_fit_raises_witness :
  sampler model1 = None /\ _samples model1 = None /\
  samples model1 world0 = (Raise AttributeError, world0).
Proof.
  split; [reflexivity|]. split; [reflexivity|].
  apply (samples_before_fit_raises model1 world0); reflexivity.
Defined.

Lemma evaluate_continuum_and_transit_witness :
  length p_low = (5 + 6 * LightCurveM.n_planets (lc model1))%nat /\
  exists f,
    fst (evaluate toy_t_folded toy_lc_eval model1 p_low world0) = Ok f /\
    length f = length (LightCurveM.time (lc model1)).
Proof.
  split; [reflexivity|].
  destruct (evaluate_continuum_and_transit toy_t_folded toy_lc_eval model1
              p_low
              (map (fun _ => Finite 0.99)
                 (select (near_mask toy_t_folded (lc model1) (width model1))
                    (LightCurveM.time (lc model1))))
              world0)
    as [f [Hev [Hlen _]]].
  - reflexivity.
  - reflexivity.
  - apply length_map.
  - exists f. rewrite Hev. split; [reflexivity | exact Hlen].
Defined.

Lemma near_mask_lc1 :
  near_mask toy_t_folded lc1 (Finite 2) = [true; false; false].
Proof.
  unfold near_mask, near_transit, LightCurveM.time, toy_t_folded.
  cbn [lc1 mask _time planets map negb select existsb planet1 period epoch
       duration].
  cbn [Np.sub Np.neg Np.add Np.absolute]. Rabs_eval. np_eval. reflexivity.
Qed.


Lemma lc1_wf : lc_wf lc1.
Proof. repeat split; reflexivity. Qed.



Lemma save_hdf_conflict_witness :
  conflict (files world_taken) "fit.h5" "koi" = true /\
  save_hdf null_lc_save_hdf model_loaded "fit.h5" "koi" false false world_taken
    = (Raise IOError, world_taken) /\
  save_hdf null_lc_save_hdf model_loaded "fit.h5" "koi" true false world_taken
    = (Ok model_loaded,
       {| files :=
            <["fit.h5" := {[samples_key "koi" := samples_node model_loaded df1]}]>
              fs_taken;
          calls := [] |}).
Proof.
  assert (Hc : conflict (files world_taken) "fit.h5" "koi" = true)
    by reflexivity.
  assert (Hext : forall l f p a fs,
             fst (null_lc_save_hdf l f p a fs) <> Raise IOError)
    by (intros; discriminate).
  split; [exact Hc|]. split.
  - destruct (proj2 (proj1 (save_hdf_conflict null_lc_save_hdf model_loaded
                              "fit.h5" "koi" false false world_taken Hext))
                (conj Hc (conj eq_refl eq_refl))) as [w' Hw'].
    assert (Hw : w' = world_taken).
    { unfold save_hdf, bind in Hw'. rewrite save_hdf_check_spec, Hc in Hw'.
      injection Hw' as <-. reflexivity. }
    rewrite Hw in Hw'. exact Hw'.
  - apply (proj2 (save_hdf_conflict null_lc_save_hdf model_loaded
                    "fit.h5" "koi" true false world_taken Hext)
             df1 model_loaded
             {| files := delete "fit.h5" fs_taken; calls := [] |});
      reflexivity.
Defined.

Lemma save_load_roundtrip_witness :
  _samples model_loaded = Some df1 /\
  exists w1 w2 loaded,
    save_hdf null_lc_save_hdf model_loaded "fit.h5" "koi" false false world0
      = (Ok model_loaded, w1) /\
    load_hdf toy_lc_load_hdf "fit.h5" "koi" w1 = (Ok loaded, w2) /\
    _samples loaded = Some df1 /\
    width loaded = Finite 2 /\
    continuum_method loaded = "constant".
Proof.
  split; [reflexivity|].
  destruct (save_load_roundtrip null_lc_save_hdf toy_lc_load_hdf
              model_loaded df1 "fit.h5" "koi" false false world0
              (<["fit.h5" := <[samples_key "koi" := samples_node model_loaded df1]> ∅]> ∅)
              (<["fit.h5" := <[samples_key "koi" := samples_node model_loaded df1]> ∅]> ∅)
              (<[samples_key "koi" := samples_node model_loaded df1]> ∅)
              lc1)
    as (w1 & w2 & loaded & Hs & Hl & Hdf & Hw & Hc & _).
  - reflexivity.
  - intros H. discriminate H.
  - reflexivity.
  - apply lookup_insert_eq.
  - apply lookup_insert_eq.
  - reflexivity.
  - exists w1, w2, loaded. repeat split; assumption.
Defined.

(** * Further properties of the code *)

(** ** Strings and keys *)

Lemma string_app_cons (x : Ascii.ascii) (a b : string) :
  String x a ++ b = String x (a ++ b).
Proof. reflexivity. Qed.

Lemma string_app_assoc (a b c : string) : (a ++ b) ++ c = a ++ (b ++ c).
Proof.
  induction a as [|x a IH]; [reflexivity|].
  rewrite !string_app_cons, IH. reflexivity.
Qed.

Lemma prefix_app (s t : string) : String.prefix s (s ++ t) = true.
Proof.
  induction s as [|a s IH]; [destruct t; reflexivity|].
  rewrite string_app_cons. simpl.
  destruct (Ascii.ascii_dec a a) as [_|Hne]; [exact IH | contradiction].
Qed.

Lemma prefix_slash_tail (c : Ascii.ascii) (r r' : string) :
  String.prefix "/" (String c r) = String.prefix "/" (String c r').
Proof.
  cbn [String.prefix]. destruct (Ascii.ascii_dec _ c); [|reflexivity].
  destruct r, r'; reflexivity.
Qed.

(** The key of the samples lies under the path: either the path is the
    root, or the normalised path followed by a slash begins the key. *)
Lemma samples_key_under_path (path : string) :
  norm_key path = "/" \/
  String.prefix (norm_key path ++ "/") (samples_key path) = true.
Proof.
  unfold samples_key, norm_key.
  destruct path as [|c rest]; [left; reflexivity|]. right.
  rewrite (string_app_cons c rest "/samples").
  rewrite (prefix_slash_tail c (rest ++ "/samples") rest).
  rewrite <- (string_app_cons c rest "/samples").
  change "/samples" with ("/" ++ "samples").
  destruct (String.prefix "/" (String c rest)).
  - rewrite <- string_app_assoc. apply prefix_app.
  - rewrite <- (string_app_assoc (String c rest)).
    rewrite <- (string_app_assoc "/" (String c rest ++ "/")).
    rewrite <- (string_app_assoc "/" (String c rest)).
    apply prefix_app.
Qed.

Lemma samples_make_conflict (fs : filesystem) (store : hdf_file)
    (filename path : string) :
  fs !! filename = Some store ->
  is_Some (store !! samples_key path) ->
  conflict fs filename path = true.
Proof.
  intros Hfile [node Hnode]. unfold conflict. rewrite Hfile.
  unfold store_contains, node_exists.
  destruct (samples_key_under_path path) as [Hroot | Hpre].
  - rewrite Hroot. reflexivity.
  - apply orb_true_iff. right. apply existsb_exists.
    exists (samples_key path). split; [|exact Hpre].
    apply in_map_iff. exists (samples_key path, node). split; [reflexivity|].
    apply list_elem_of_In. apply elem_of_map_to_list. exact Hnode.
Qed.

Section MoreProperties.

Variable G : R.
Variable utils_t_folded : np_float -> np_float -> np_float -> np_float.
Variable lc_eval : ndarray -> ndarray -> np_float -> result ndarray.
Variable lc_save_hdf :
  LightCurve -> string -> string -> bool -> filesystem ->
  result unit * filesystem.
Variable lc_load_hdf :
  string -> string -> string -> filesystem -> result LightCurve * filesystem.

(** ** Persistence *)

(** X1.  Once a file holds samples under a path, [save_hdf] of any model to
    that file and path with neither [overwrite] nor [append] raises
    [IOError] and changes nothing: the key of the samples, [path/samples],
    makes [path in store] true. *)
Theorem save_hdf_taken_path (self : TransitModel) (store : hdf_file)
    (filename path : string) (w : world) :
  files w !! filename = Some store ->
  is_Some (store !! samples_key path) ->
  save_hdf lc_save_hdf self filename path false false w = (Raise IOError, w).
Proof.
  intros Hfile Hnode. unfold save_hdf. unfold bind.
  rewrite save_hdf_check_spec.
  rewrite (samples_make_conflict _ _ _ _ Hfile Hnode). reflexivity.
Qed.

(** X2.  [save_hdf] with [overwrite] on an existing path removes the file
    before it asks the model for its samples: on a model that has neither a
    sampler nor cached samples the call raises [AttributeError] and the file
    is gone. *)
Theorem save_hdf_overwrite_without_samples (self : TransitModel)
    (filename path : string) (append : bool) (w : world) :
  conflict (files w) filename path = true ->
  sampler self = None ->
  _samples self = None ->
  save_hdf lc_save_hdf self filename path true append w =
    (Raise AttributeError,
     {| files := delete filename (files w); calls := calls w |})
  /\ delete filename (files w) !! filename = None.
Proof.
  intros Hc Hs Hd. split; [|apply lookup_delete_eq].
  unfold save_hdf. unfold bind at 1. rewrite save_hdf_check_spec, Hc.
  unfold save_hdf_write. unfold bind at 1.
  unfold samples. rewrite Hs, Hd. reflexivity.
Qed.


(** X4.  [load_hdf] raises [KeyError] when the file is missing or holds no
    samples under the path. *)
Theorem load_hdf_missing (filename path : string) (w : world) :
  node_at (files w) filename (samples_key path) = None ->
  fst (load_hdf lc_load_hdf filename path w) = Raise KeyError.
Proof.
  intros Hnone. unfold load_hdf, open_store. unfold_monad.
  unfold node_at in Hnone. fold (samples_key path).
  destruct (files w !! filename) as [store|].
  - rewrite Hnone. reflexivity.
  - rewrite lookup_empty. reflexivity.
Qed.

(** X5.  A model that [load_hdf] returns has its samples cached and has
    neither a sampler nor a best fit: reading [samples] gives the stored
    table without any derivation, and [_make_samples] on it raises
    [AttributeError]. *)
Theorem load_hdf_restores_samples_only (filename path : string)
    (loaded : TransitModel) (w w' : world) :
  load_hdf lc_load_hdf filename path w = (Ok loaded, w') ->
  sampler loaded = None /\
  _bestfit loaded = None /\
  (exists df, _samples loaded = Some df /\
              node_frame <$> node_at (files w) filename (samples_key path)
                = Some df /\
              forall w2, samples loaded w2 = (Ok (Some df, loaded), w2)) /\
  forall w2, fst (_make_samples loaded w2) = Raise AttributeError.
Proof.
  unfold load_hdf, open_store, get_attr, run_lc_load_hdf. unfold_monad.
  fold (samples_key path). unfold node_at.
  destruct (files w !! filename) as [store|]; cbn [files calls].
  - destruct (store !! samples_key path) as [node|]; [|discriminate].
    destruct (attr_width _); [|discriminate].
    destruct (attr_continuum_method _); [|discriminate].
    destruct (attr_lc_type _); [|discriminate].
    destruct (lc_load_hdf _ _ _ _) as [[l|e] fs']; [|discriminate].
    intros H. injection H as <- _.
    split; [reflexivity|]. split; [reflexivity|]. split.
    + exists (node_frame node). split; [reflexivity|]. split; [reflexivity|].
      intros w2. reflexivity.
    + intros w2. reflexivity.
  - rewrite lookup_empty. discriminate.
Qed.

End MoreProperties.

(** ** The sample table *)

Lemma df_set_fresh (df : DataFrame) (name : string) (col : list np_float) :
  ~ In name (map fst df) -> df_set df name col = (df ++ [(name, col)])%list.
Proof.
  induction df as [|[n c] df IH]; intros Hfresh; [reflexivity|].
  simpl in Hfresh. cbn [df_set].
  destruct (String.eqb_spec n name) as [->|Hne]; [tauto|].
  rewrite IH by tauto. reflexivity.
Qed.

Lemma column_name_inj (par par' : string) (i i' : nat) :
  In par planet_params -> In par' planet_params ->
  column_name par i = column_name par' i' -> par = par' /\ i = i'.
Proof.
  unfold planet_params, column_name. intros Hp Hp' Heq.
  simpl in Hp, Hp'.
  repeat (destruct Hp as [<-|Hp]; [|]); try contradiction;
  repeat (destruct Hp' as [<-|Hp']; [|]); try contradiction;
  try discriminate Heq;
  (split; [reflexivity|]);
  apply String.app_inj in Heq; apply String.app_inj in Heq;
  apply pretty_nat_inj in Heq; lia.
Qed.

Lemma column_name_not_star (par : string) (i : nat) :
  In par planet_params -> ~ In (column_name par i) star_columns.
Proof.
  unfold planet_params, column_name, star_columns. intros Hp Hin.
  simpl in Hp, Hin.
  repeat (destruct Hp as [<-|Hp]; [|]); try contradiction;
  repeat (destruct Hin as [Hin|Hin]; [discriminate Hin|]); contradiction.
Qed.

Lemma combine_app_eq {A B} (a a' : list A) (b b' : list B) :
  length a = length b ->
  combine (a ++ a') (b ++ b') = (combine a b ++ combine a' b')%list.
Proof.
  revert b. induction a as [|x a IH]; intros [|y b] H; try discriminate;
    [reflexivity|].
  simpl. f_equal. apply IH. simpl in H. lia.
Qed.

Lemma map_fst_combine_eq {A B} (a : list A) (b : list B) :
  length a = length b -> map fst (combine a b) = a.
Proof.
  revert b. induction a as [|x a IH]; intros [|y b] H; try discriminate;
    [reflexivity|].
  simpl. f_equal. apply IH. simpl in H. lia.
Qed.

Lemma map_snd_combine_eq {A B} (a : list A) (b : list B) :
  length a = length b -> map snd (combine a b) = b.
Proof.
  revert b. induction a as [|x a IH]; intros [|y b] H; try discriminate;
    [reflexivity|].
  simpl. f_equal. apply IH. simpl in H. lia.
Qed.

Lemma make_planet_columns_value (chain : ndarray2) (i : nat) (pars : list string) :
  forall (j : nat) (df : DataFrame),
  (5 + (j + length pars) + i * 6 <= ncols chain)%nat ->
  List.NoDup (map (fun par => column_name par i) pars) ->
  (forall par, In par pars -> ~ In (column_name par i) (map fst df)) ->
  make_planet_columns chain i pars j df =
  Ok (df ++ combine (map (fun par => column_name par i) pars)
                    (map (chain_column chain) (seq (5 + j + i * 6) (length pars))))%list.
Proof.
  induction pars as [|par pars IH]; intros j df Hlen Hnd Hfresh.
  - simpl. rewrite app_nil_r. reflexivity.
  - simpl length in Hlen. cbn [make_planet_columns].
    rewrite column_ok by lia. cbn [rbind].
    rewrite df_set_fresh by (apply Hfresh; left; reflexivity).
    inversion Hnd as [|? ? Hnotin Hnd']; subst.
    rewrite IH; [| lia | exact Hnd' |].
    + rewrite <- app_assoc. cbn [map length seq combine app].
      replace (5 + S j + i * 6)%nat with (S (5 + j + i * 6)) by lia.
      reflexivity.
    + intros par' Hin. rewrite map_app. cbn [map fst]. intros Hin'.
      apply in_app_or in Hin' as [Hin'|Hin'].
      * apply (Hfresh par'); [right; exact Hin | exact Hin'].
      * destruct Hin' as [Heq|[]]. apply Hnotin. rewrite Heq.
        apply in_map_iff. exists par'. split; [reflexivity | exact Hin].
Qed.

Lemma planet_names_nodup (i : nat) :
  List.NoDup (map (fun par => column_name par i) planet_params).
Proof.
  unfold planet_params, column_name. cbn [map].
  repeat constructor; cbn [In]; intros H;
    repeat (destruct H as [H|H]; [discriminate H|]); exact H.
Qed.

Lemma make_columns_value (chain : ndarray2) (k : nat) :
  forall (i0 : nat) (df : DataFrame),
  (5 + (i0 + k) * 6 <= ncols chain)%nat ->
  (forall i par, (i0 <= i < i0 + k)%nat -> In par planet_params ->
                 ~ In (column_name par i) (map fst df)) ->
  make_columns chain (seq i0 k) df =
  Ok (df ++ combine
              (flat_map (fun i => map (fun par => column_name par i) planet_params)
                        (seq i0 k))
              (map (chain_column chain) (seq (5 + i0 * 6) (6 * k))))%list.
Proof.
  induction k as [|k IH]; intros i0 df Hlen Hfresh.
  - cbn [seq make_columns flat_map]. rewrite Nat.mul_0_r.
    cbn [seq map combine]. rewrite app_nil_r. reflexivity.
  - cbn [seq make_columns].
    rewrite make_planet_columns_value;
      [| simpl; lia | apply planet_names_nodup
       | intros par Hin; apply Hfresh; [lia | exact Hin]].
    cbn [rbind]. rewrite IH; [| lia |].
    + rewrite <- app_assoc. do 2 f_equal. cbn [flat_map].
      replace (6 * S k)%nat with (6 + 6 * k)%nat by lia.
      rewrite seq_app, map_app.
      rewrite combine_app_eq by (rewrite !length_map, length_seq; reflexivity).
      replace (5 + 0 + i0 * 6)%nat with (5 + i0 * 6)%nat by lia.
      replace (5 + i0 * 6 + 6)%nat with (5 + S i0 * 6)%nat by lia.
      reflexivity.
    + intros i par Hi Hin. rewrite map_app. intros Hin'.
      apply in_app_or in Hin' as [Hin'|Hin'].
      * apply (Hfresh i par); [lia | exact Hin | exact Hin'].
      * rewrite map_fst_combine_eq in Hin'
          by (rewrite !length_map, length_seq; reflexivity).
        apply in_map_iff in Hin' as [par' [Heq Hin'']].
        apply column_name_inj in Heq as [_ Heq]; [lia | exact Hin'' | exact Hin].
Qed.

Lemma length_planet_names (l : list nat) :
  length (flat_map (fun i => map (fun par => column_name par i) planet_params) l)
  = (6 * length l)%nat.
Proof.
  induction l as [|i l IH]; [reflexivity|].
  cbn [flat_map]. rewrite length_app, IH, length_map. simpl. lia.
Qed.

Lemma make_samples_value (self : TransitModel) (s : Sampler) (w : world) :
  sampler self = Some s ->
  (5 + 6 * LightCurveM.n_planets (lc self) <= ncols (flatchain s))%nat ->
  exists df,
    _make_samples self w =
      (Ok (set_samples self (Some df)),
       {| files := files w; calls := calls w ++ [CallMakeSamples] |})
    /\ map fst df = (star_columns ++ planet_columns (LightCurveM.n_planets (lc self)))%list
    /\ map snd df =
       map (chain_column (flatchain s))
           ([4; 0; 2; 3; 1]%nat ++ seq 5 (6 * LightCurveM.n_planets (lc self)))%list.
Proof.
  intros Hs Hcols. unfold _make_samples.
  unfold bind, ret, raise, lift, log_call. rewrite Hs.
  rewrite !column_ok by lia.
  rewrite make_columns_value.
  - eexists. split; [reflexivity|].
    rewrite !map_app.
    rewrite map_fst_combine_eq, map_snd_combine_eq
      by (rewrite length_map, length_seq, length_planet_names, length_seq;
          reflexivity).
    split; reflexivity.
  - lia.
  - intros i par _ Hin. apply column_name_not_star. exact Hin.
Qed.


Lemma column_fail (chain : ndarray2) (j : nat) :
  (ncols chain <= j)%nat -> column chain j = Raise IndexError.
Proof.
  intros Hj. unfold column.
  destruct (Nat.ltb_spec j (ncols chain)); [lia | reflexivity].
Qed.

Lemma make_planet_columns_fail (chain : ndarray2) (i : nat) (pars : list string) :
  forall (j : nat) (df : DataFrame),
  pars <> [] ->
  (ncols chain < 5 + (j + length pars) + i * 6)%nat ->
  make_planet_columns chain i pars j df = Raise IndexError.
Proof.
  induction pars as [|par pars IH]; intros j df Hne Hlen; [contradiction|].
  cbn [make_planet_columns]. simpl length in Hlen.
  destruct (le_lt_dec (ncols chain) (5 + j + i * 6)) as [Hle|Hlt].
  - rewrite column_fail by exact Hle. reflexivity.
  - rewrite column_ok by exact Hlt. cbn [rbind].
    apply IH; [|lia]. destruct pars; [simpl in Hlen; lia | discriminate].
Qed.

Lemma make_columns_fail (chain : ndarray2) (idx : list nat) :
  forall df : DataFrame,
  List.Exists (fun i => (ncols chain < 11 + i * 6)%nat) idx ->
  make_columns chain idx df = Raise IndexError.
Proof.
  induction idx as [|i idx IH]; intros df Hex; [inversion Hex|].
  cbn [make_columns].
  destruct (le_lt_dec (11 + i * 6) (ncols chain)) as [Hle|Hlt].
  - destruct (make_planet_columns_ok chain i planet_params 0%nat df) as [df' ->].
    { simpl. lia. }
    cbn [rbind]. apply IH. inversion Hex; subst; [lia | assumption].
  - rewrite make_planet_columns_fail; [reflexivity | discriminate | simpl; lia].
Qed.

Lemma samples_narrow_chain_make (self : TransitModel) (s : Sampler) (w : world) :
  sampler self = Some s ->
  (ncols (flatchain s) < 5 + 6 * LightCurveM.n_planets (lc self))%nat ->
  fst (_make_samples self w) = Raise IndexError.
Proof.
  intros Hs Hcols.
  unfold _make_samples. unfold bind, ret, raise, lift, log_call. rewrite Hs.
  destruct (le_lt_dec 5 (ncols (flatchain s))) as [H5|H5].
  - rewrite !column_ok by lia.
    rewrite make_columns_fail; [reflexivity|].
    apply List.Exists_exists.
    exists (LightCurveM.n_planets (lc self) - 1)%nat. split; [|lia].
    apply in_seq. lia.
  - destruct (ncols (flatchain s)) as [|[|[|[|[|k]]]]] eqn:Hn; try lia.
    + rewrite (column_fail _ 0%nat) by lia. reflexivity.
    + rewrite (column_ok _ 0%nat), (column_fail _ 1%nat) by lia. reflexivity.
    + rewrite (column_ok _ 0%nat), (column_ok _ 1%nat), (column_fail _ 2%nat) by lia.
      reflexivity.
    + rewrite (column_ok _ 0%nat), (column_ok _ 1%nat), (column_ok _ 2%nat),
        (column_fail _ 3%nat) by lia. reflexivity.
    + rewrite (column_ok _ 0%nat), (column_ok _ 1%nat), (column_ok _ 2%nat),
        (column_ok _ 3%nat), (column_fail _ 4%nat) by lia. reflexivity.
Qed.

(** X7.  When the chain has fewer columns than the light curve has
    parameters, the first access to [samples] raises [IndexError]. *)
Theorem samples_narrow_chain (self : TransitModel) (s : Sampler) (w : world) :
  sampler self = Some s ->
  _samples self = None ->
  (ncols (flatchain s) < 5 + 6 * LightCurveM.n_planets (lc self))%nat ->
  fst (samples self w) = Raise IndexError.
Proof.
  intros Hs Hcache Hcols.
  pose proof (samples_narrow_chain_make self s w Hs Hcols) as Hmk.
  rewrite (samples_with_sampler self s Hs), Hcache. unfold bind.
  destruct (_make_samples self w) as [[m|e] w1]; [discriminate Hmk|].
  simpl in Hmk |- *. injection Hmk as ->. reflexivity.
Qed.

(** X8.  The names [triangle] plots by default for candidate [i] are
    columns of the table [_make_samples] derives exactly when the light
    curve has a candidate [i]: for [i < n] every default name is there, for
    [i >= n] none of the candidate's names is.  The flux zero-point is never
    among the defaults. *)
Theorem triangle_defaults_are_columns (self : TransitModel) (s : Sampler)
    (self' : TransitModel) (df : DataFrame) (w w' : world) (i : nat) :
  sampler self = Some s ->
  _make_samples self w = (Ok self', w') ->
  _samples self' = Some df ->
  ((i < LightCurveM.n_planets (lc self))%nat ->
   forall name, In name (triangle_default_params i) -> In name (map fst df))
  /\
  ((LightCurveM.n_planets (lc self) <= i)%nat ->
   forall par, In par planet_params -> ~ In (column_name par i) (map fst df))
  /\ ~ In "flux_zp" (triangle_default_params i).
Proof.
  intros Hs Hmk Hdf.
  destruct (le_lt_dec (5 + 6 * LightCurveM.n_planets (lc self))
              (ncols (flatchain s))) as [Hcols|Hcols].
  - destruct (make_samples_value self s w Hs Hcols) as (df0 & Hmk0 & Hnames & _).
    rewrite Hmk0 in Hmk. injection Hmk as <- _.
    cbn [set_samples _samples] in Hdf. injection Hdf as <-.
    rewrite Hnames. split; [|split].
    + intros Hi name Hin. unfold triangle_default_params in Hin.
      apply in_app_or in Hin as [Hin|Hin].
      * apply in_or_app. left. unfold star_columns. simpl in Hin |- *. tauto.
      * apply in_or_app. right. unfold planet_columns.
        apply in_flat_map. exists i. split; [apply in_seq; lia | exact Hin].
    + intros Hi par Hpar Hin. apply in_app_or in Hin as [Hin|Hin].
      * exact (column_name_not_star par i Hpar Hin).
      * unfold planet_columns in Hin. apply in_flat_map in Hin as [i' [Hi' Hin]].
        apply in_seq in Hi'. apply in_map_iff in Hin as [par' [Heq Hpar']].
        apply column_name_inj in Heq as [_ Heq]; [lia | exact Hpar' | exact Hpar].
    + unfold triangle_default_params, planet_params, column_name.
      cbn [map app In]. intros H.
      repeat (destruct H as [H|H]; [discriminate H|]). exact H.
  - exfalso.
    assert (Hfail : fst (_make_samples self w) = Raise IndexError).
    { pose proof (samples_narrow_chain_make self s w Hs Hcols) as H. exact H. }
    rewrite Hmk in Hfail. discriminate.
Qed.

(** ** The prior, the posterior and the likelihood on unusual vectors *)

Lemma slice_app {A} (i j : nat) (p extra : list A) :
  (i <= j <= length p)%nat -> slice i j (p ++ extra) = slice i j p.
Proof.
  intros H. unfold slice.
  rewrite skipn_app. replace (i - length p)%nat with 0%nat by lia.
  cbn [skipn]. rewrite firstn_app.
  replace (j - i - length (skipn i p))%nat with 0%nat
    by (rewrite length_skipn; lia).
  cbn [firstn]. apply app_nil_r.
Qed.

Lemma add_zero_l (x : np_float) : Np.add (Finite 0) x = x.
Proof. destruct x; try reflexivity. cbn [Np.add]. f_equal. lra. Qed.

Section InferenceProperties.

Variable G : R.
Variable utils_t_folded : np_float -> np_float -> np_float -> np_float.
Variable lc_eval : ndarray -> ndarray -> np_float -> result ndarray.

Lemma lnprior_loop_app (p extra : ndarray) (rho : np_float)
    (pls : list Planet) :
  forall (i0 : nat) (tot : np_float),
  (5 + (i0 + length pls) * 6 <= length p)%nat ->
  lnprior_loop G (p ++ extra) rho pls i0 tot = lnprior_loop G p rho pls i0 tot
  /\ exists v, lnprior_loop G p rho pls i0 tot = Ok v.
Proof.
  induction pls as [|pl pls IH]; intros i0 tot Hlen.
  - split; [reflexivity | eexists; reflexivity].
  - simpl length in Hlen. cbn [lnprior_loop].
    rewrite slice_app by lia. rewrite slice_candidate by lia.
    cbv beta iota zeta.
    destruct (Np.gt _ (Finite 1)); [split; [|eexists]; reflexivity|].
    destruct (Np.le _ (Finite 0)); [split; [|eexists]; reflexivity|].
    destruct (negb _); [split; [|eexists]; reflexivity|].
    destruct (Np.lt _ (Finite 0)); [split; [|eexists]; reflexivity|].
    destruct (Np.le _ (Finite 0)); [split; [|eexists]; reflexivity|].
    destruct (_period pl), (_epoch pl). apply IH. lia.
Qed.

(** X9.  On a vector of the length the light curve asks for, [lnprior]
    never raises; and entries beyond that length are ignored: the vector is
    not checked against the number of candidates. *)
Theorem lnprior_long_vector (self : TransitModel) (p extra : ndarray) :
  length p = (5 + 6 * LightCurveM.n_planets (lc self))%nat ->
  (exists v, lnprior G self p = Ok v) /\
  lnprior G self (p ++ extra) = lnprior G self p.
Proof.
  intros Hlen. unfold lnprior.
  rewrite firstn_app. replace (5 - length p)%nat with 0%nat by lia.
  cbn [firstn]. rewrite app_nil_r.
  rewrite firstn5_params by lia.
  destruct (lnprior_loop_app p extra (param p 1) (planets (lc self)) 0%nat
              (Finite 0))
    as [Happ [v Hv]].
  { unfold LightCurveM.n_planets in Hlen. lia. }
  destruct (negb _); [split; [eexists|]; reflexivity|].
  destruct (Np.lt _ _); [split; [eexists|]; reflexivity|].
  destruct (negb _); [split; [eexists|]; reflexivity|].
  split; [exists v; exact Hv | exact Happ].
Qed.

(** X10.  On a vector of fewer than five entries [lnprior] raises
    [ValueError], and so does [lnpost], before the likelihood is entered. *)
Theorem lnprior_short_vector (self : TransitModel) (p : ndarray) (w : world) :
  (length p < 5)%nat ->
  lnprior G self p = Raise ValueError /\
  lnpost G utils_t_folded lc_eval self p w = (Raise ValueError, w).
Proof.
  intros Hlen.
  assert (H : lnprior G self p = Raise ValueError).
  { unfold lnprior.
    do 5 (destruct p as [|? p]; [reflexivity|]). simpl in Hlen. lia. }
  split; [exact H|].
  unfold lnpost, lnpost_with, bind, lift. rewrite H. reflexivity.
Qed.

Lemma lnprior_loop_head (x y : np_float) (p' : ndarray) (rho : np_float)
    (pls : list Planet) :
  forall (i0 : nat) (tot : np_float),
  lnprior_loop G (x :: p') rho pls i0 tot
  = lnprior_loop G (y :: p') rho pls i0 tot.
Proof.
  induction pls as [|pl pls IH]; intros i0 tot; [reflexivity|].
  cbn [lnprior_loop].
  assert (Hs : slice (5 + i0 * 6) (11 + i0 * 6) (x :: p')
               = slice (5 + i0 * 6) (11 + i0 * 6) (y :: p')) by reflexivity.
  rewrite Hs.
  destruct (slice _ _ _) as [|a [|b [|c [|d [|e [|f [|? ?]]]]]]];
    try reflexivity.
  cbv beta iota zeta.
  repeat match goal with
         | |- (if ?c then _ else _) = _ => destruct c; [reflexivity|]
         end.
  destruct (_period pl), (_epoch pl). apply IH.
Qed.

(** X12.  [lnprior] does not depend on the flux zero-point [p[0]]: it is
    neither tested nor given a prior. *)
Theorem lnprior_ignores_flux_zp (self : TransitModel) (x y : np_float)
    (p' : ndarray) :
  lnprior G self (x :: p') = lnprior G self (y :: p').
Proof.
  unfold lnprior. cbn [firstn].
  destruct (firstn 4 p') as [|a [|b [|c [|d [|? ?]]]]]; try reflexivity.
  repeat match goal with
         | |- (if ?c then _ else _) = _ => destruct c; [reflexivity|]
         end.
  apply lnprior_loop_head.
Qed.

(** X13.  On a light curve without candidates, a vector whose star block
    passes the tests has the log-prior 0, and [lnpost] is [lnlike]. *)
Theorem lnpost_no_candidates (self : TransitModel) (p : ndarray) (w : world) :
  planets (lc self) = [] ->
  (5 <= length p)%nat ->
  star_invalid p = false ->
  lnprior G self p = Ok (Finite 0) /\
  lnpost G utils_t_folded lc_eval self p w
  = lnlike utils_t_folded lc_eval self p w.
Proof.
  intros Hpl Hlen Hstar.
  assert (H : lnprior G self p = Ok (Finite 0)).
  { unfold lnprior. rewrite firstn5_params by lia.
    unfold star_invalid in Hstar. cbv zeta in Hstar.
    apply orb_false_iff in Hstar as [Hstar Hdil].
    apply orb_false_iff in Hstar as [Hstar Hrho].
    apply orb_false_iff in Hstar as [Hq1 Hq2].
    apply negb_false_iff in Hq1, Hq2, Hdil.
    rewrite Hq1, Hq2, Hrho, Hdil, Hpl. reflexivity. }
  split; [exact H|].
  unfold lnpost, lnpost_with. unfold bind at 1. unfold lift at 1. rewrite H.
  cbn [Np.isfinite]. unfold bind, ret.
  destruct (lnlike utils_t_folded lc_eval self p w) as [[like|e] w'];
    [rewrite add_zero_l|]; reflexivity.
Qed.

(** X14.  Where [lnprior] returns minus infinity, [cost] returns plus
    infinity and leaves the world, with its log of calls, as it was: the
    optimiser pays no likelihood evaluation there. *)
Theorem cost_of_rejected (self : TransitModel) (p : ndarray) (w : world) :
  lnprior G self p = Ok NInf ->
  cost G utils_t_folded lc_eval self p w = (Ok PInf, w).
Proof.
  intros H. unfold cost, lnpost, lnpost_with, bind, lift, ret. rewrite H.
  reflexivity.
Qed.

(** X15.  [lnlike] turns only the invalid-parameter signal into minus
    infinity: any other exception of [evaluate] is raised by [lnlike]. *)
Theorem lnlike_propagates (self : TransitModel) (p : ndarray) (e : exn)
    (w w2 : world) :
  e <> InvalidParameterError ->
  evaluate utils_t_folded lc_eval self p
    {| files := files w; calls := calls w ++ [CallLnlike p] |}
  = (Raise e, w2) ->
  lnlike utils_t_folded lc_eval self p w = (Raise e, w2).
Proof.
  intros He Hev. unfold lnlike. unfold bind, log_call, try_except.
  rewrite Hev. destruct e; try reflexivity. contradiction.
Qed.

(** X16.  On a light curve whose series have the length of the mask,
    whatever [evaluate] returns has the length of [flux] and of [flux_err],
    so the arithmetic of [lnlike] meets no shape mismatch: [lnlike] returns
    whenever [evaluate] does. *)
Theorem lnlike_shape_safe (self : TransitModel) (p model : ndarray)
    (w w2 : world) :
  lc_wf (lc self) ->
  evaluate utils_t_folded lc_eval self p
    {| files := files w; calls := calls w ++ [CallLnlike p] |}
  = (Ok model, w2) ->
  length model = length (LightCurveM.flux (lc self)) /\
  length model = length (LightCurveM.flux_err (lc self)) /\
  exists like, lnlike utils_t_folded lc_eval self p w = (Ok like, w2).
Proof.
  intros Hwf Hev.
  pose proof (evaluate_length _ _ _ _ _ _ _ Hev) as Hlen.
  destruct (length_unmasked _ Hwf) as [Hlf Hle].
  split; [congruence|]. split; [congruence|].
  unfold lnlike. unfold bind at 1. unfold log_call, try_except. rewrite Hev.
  unfold bind, lift, ret, broadcast2.
  replace (length model =? length (LightCurveM.flux (lc self)))%nat with true
    by (symmetry; apply Nat.eqb_eq; congruence).
  rewrite !length_map.
  assert (Hz : length (zip_with Np.sub model (LightCurveM.flux (lc self)))
               = length model).
  { assert (Hm : length (LightCurveM.flux (lc self)) = length model)
      by congruence.
    revert Hm. generalize (LightCurveM.flux (lc self)). clear.
    induction model as [|m model IH]; intros [|o os] H; simpl in *; try lia.
    f_equal. apply IH. lia. }
  rewrite Hz.
  replace (length model =? length (LightCurveM.flux_err (lc self)))%nat
    with true by (symmetry; apply Nat.eqb_eq; congruence).
  eexists. reflexivity.
Qed.

End InferenceProperties.

(** ** The flux model without candidates, the windows, the accessors *)

Lemma select_none {A} (t : list A) : select (map (fun _ => false) t) t = [].
Proof. induction t as [|x t IH]; [reflexivity | exact IH]. Qed.

Lemma scatter_none (f : ndarray) : scatter f (map (fun _ => false) f) [] = f.
Proof. induction f as [|x f IH]; [reflexivity|]. simpl. f_equal. exact IH. Qed.

Lemma scatter_all_false (f : ndarray) (t : ndarray) :
  length f = length t -> scatter f (map (fun _ => false) t) [] = f.
Proof.
  revert t. induction f as [|x f IH]; intros [|y t] H; try discriminate;
    [reflexivity|].
  simpl. f_equal. apply IH. simpl in H. lia.
Qed.

Lemma zip_orb_false {A} (acc : list bool) (t : list A) :
  length acc = length t ->
  zip_with orb acc (map (fun _ => false) t) = acc.
Proof.
  revert t. induction acc as [|a acc IH]; intros [|x t] H; try discriminate;
    [reflexivity|].
  simpl. rewrite orb_false_r. f_equal. apply IH. simpl in H. lia.
Qed.

Lemma zip_zeros_map {A} (h : A -> bool) (t : list A) :
  zip_with orb (map (fun _ => false) t) (map h t) = map h t.
Proof. induction t as [|x t IH]; [reflexivity|]. simpl. f_equal. exact IH. Qed.

Section FluxAndWindows.
Variable utils_t_folded : np_float -> np_float -> np_float -> np_float.
Variable lc_eval : ndarray -> ndarray -> np_float -> result (ndarray).

(** X17.  On a light curve without candidates [evaluate] still calls the
    transit model, with an empty array of times; when the model answers
    with an empty array, the prediction is the zero-point [p[0]] at every
    unmasked observation. *)
Theorem evaluate_no_candidates (self : TransitModel) (p0 : np_float)
    (p' : ndarray) (w : world) :
  planets (lc self) = [] ->
  lc_eval p' [] (texp (lc self)) = Ok [] ->
  evaluate utils_t_folded lc_eval self (p0 :: p') w =
    (Ok (map (fun _ => p0) (LightCurveM.time (lc self))),
     {| files := files w;
        calls := calls w ++ [CallLcEval p' [] (texp (lc self))] |}).
Proof.
  intros Hpl Hev.
  assert (Hmask : near_mask utils_t_folded (lc self) (width self)
                  = map (fun _ => false) (LightCurveM.time (lc self))).
  { unfold near_mask, near_transit. rewrite Hpl. reflexivity. }
  assert (Htimes : select (near_mask utils_t_folded (lc self) (width self))
                     (LightCurveM.time (lc self)) = []).
  { rewrite Hmask. apply select_none. }
  rewrite (evaluate_value utils_t_folded lc_eval self p0 p' []).
  - rewrite Htimes, Hmask. unfold ones_like, LightCurveM.t.
    rewrite map_map, scatter_all_false by (rewrite length_map; reflexivity).
    do 2 f_equal. apply map_ext. intros x. apply mul_one.
  - rewrite Htimes. exact Hev.
  - rewrite Htimes. reflexivity.
Qed.

(** The union loop over candidates [rest = planets[i0:]], each window being
    a test of the time against the candidate. *)
Lemma mask_union_from (l : LightCurve) (g : Planet -> np_float -> bool)
    (window : nat -> result (list bool)) (rest : list Planet) :
  (forall i, window i =
     match planets l !! i with
     | Some pl => Ok (map (g pl) (LightCurveM.time l))
     | None => Raise IndexError
     end) ->
  forall (i0 : nat) (acc : list bool),
  skipn i0 (planets l) = rest ->
  length acc = length (LightCurveM.time l) ->
  LightCurveMore.mask_union window (seq i0 (length rest)) acc =
  Ok (zip_with orb acc
        (map (fun x => existsb (fun pl => g pl x) rest) (LightCurveM.time l))).
Proof.
  intros Hwin.
  induction rest as [|pl rest IH]; intros i0 acc Hskip Hlen.
  - cbn [length seq LightCurveMore.mask_union existsb]. f_equal.
    symmetry. apply zip_orb_false. exact Hlen.
  - destruct (skipn_cons _ _ _ _ Hskip) as [Hpl Hrest].
    cbn [length seq LightCurveMore.mask_union].
    rewrite Hwin, Hpl. cbn [rbind].
    unfold iadd_bool. rewrite length_map, Hlen, Nat.eqb_refl.
    cbn [rbind]. rewrite IH; [|exact Hrest|].
    + f_equal. rewrite (zip_orb_map acc (g pl)) by exact Hlen. reflexivity.
    + rewrite length_zip_orb; [exact Hlen|]. rewrite length_map. exact Hlen.
Qed.

Lemma mask_union_all (l : LightCurve) (g : Planet -> np_float -> bool)
    (window : nat -> result (list bool)) :
  (forall i, window i =
     match planets l !! i with
     | Some pl => Ok (map (g pl) (LightCurveM.time l))
     | None => Raise IndexError
     end) ->
  LightCurveMore.mask_union window (seq 0 (LightCurveM.n_planets l))
    (zeros_like_bool (LightCurveM.time l)) =
  Ok (map (fun x => existsb (fun pl => g pl x) (planets l)) (LightCurveM.time l)).
Proof.
  intros Hwin. unfold LightCurveM.n_planets.
  rewrite (mask_union_from l g window (planets l) Hwin 0%nat); [|reflexivity|].
  - f_equal. apply zip_zeros_map.
  - unfold zeros_like_bool. rewrite length_map. reflexivity.
Qed.

Lemma narrow_window_in_wide (a d : np_float) :
  Np.lt (Np.absolute a) (Np.mul (Finite 0.55) d) = true ->
  Np.lt (Np.absolute a) (Np.mul (Finite 2) d) = true.
Proof.
  destruct a as [r| | |], d as [s| | |]; cbn [Np.absolute Np.mul Np.lt];
    unfold Np.inf_times; Rdecide; cbn [xorb Np.lt]; try discriminate;
    try reflexivity.
  intros H. apply Rltb_true in H. apply Rltb_true.
  pose proof (Rabs_pos r). lra.
Qed.

(** X18.  [any_intransit] and [anyclose] always return, with one entry per
    unmasked observation, and every observation that [any_intransit] marks
    is marked by [anyclose]: the window of 0.55 durations lies within the
    window of 2 durations, whatever the durations are. *)
Theorem intransit_within_anyclose (l : LightCurve) :
  exists a c,
    LightCurveMore.any_intransit utils_t_folded l = Ok a /\
    LightCurveMore.anyclose utils_t_folded l = Ok c /\
    length a = length (LightCurveM.time l) /\
    length c = length (LightCurveM.time l) /\
    forall k, a !! k = Some true -> c !! k = Some true.
Proof.
  unfold LightCurveMore.any_intransit, LightCurveMore.anyclose.
  rewrite (mask_union_all l (window_test utils_t_folded (Finite 0.55)))
    by (intros i; unfold LightCurveMore.intransit; destruct (planets l !! i);
        [|reflexivity];
        unfold PlanetM.in_transit, PlanetM.t_close, PlanetM.t_folded;
        rewrite map_map; reflexivity).
  rewrite (mask_union_all l (window_test utils_t_folded (Finite 2)))
    by (intros i; unfold LightCurveM.t_close; destruct (planets l !! i);
        [|reflexivity];
        unfold PlanetM.t_close, PlanetM.t_folded;
        rewrite map_map; reflexivity).
  eexists. eexists. split; [reflexivity|]. split; [reflexivity|].
  split; [apply length_map|]. split; [apply length_map|].
  induction (LightCurveM.time l) as [|x t IH]; intros [|k] Hk; try discriminate.
  - simpl in Hk |- *. injection Hk as Hk. f_equal.
    apply existsb_exists in Hk as [pl [Hin Hpl]].
    apply existsb_exists. exists pl. split; [exact Hin|].
    apply narrow_window_in_wide. exact Hpl.
  - apply IH. exact Hk.
Qed.
End FluxAndWindows.

Lemma select_all {A} (m : list bool) (a : list A) :
  length a = length m -> Forall (fun b => b = true) m -> select m a = a.
Proof.
  revert a. induction m as [|b m IH]; intros [|x a] Hlen Hall;
    try discriminate; [reflexivity|].
  inversion Hall as [|? ? Hb Hm]; subst. simpl. f_equal.
  apply IH; [simpl in Hlen; lia | exact Hm].
Qed.

(** X19.  On a light curve whose series have the length of the mask, the
    accessors [time], [flux], [rawflux] and [flux_err] return arrays of one
    length, the number of unmasked points. *)
Theorem unmasked_views_aligned (l : LightCurve) :
  lc_wf l ->
  let n := count_true (map negb (mask l)) in
  length (LightCurveM.time l) = n /\
  length (LightCurveM.flux l) = n /\
  length (LightCurveM.rawflux l) = n /\
  length (LightCurveM.flux_err l) = n /\
  (n <= length (mask l))%nat.
Proof.
  intros (Ht & Hf & He & Hd) n.
  unfold LightCurveM.time, LightCurveM.flux, LightCurveM.rawflux,
    LightCurveM.flux_err.
  rewrite !length_select_count by (rewrite length_map; congruence).
  repeat split. unfold n. clear.
  induction (mask l) as [|b m IH]; [reflexivity|].
  destruct b; simpl; lia.
Qed.

(** X20.  When no point is masked, the accessors return the whole
    series. *)
Theorem nothing_masked (l : LightCurve) :
  lc_wf l ->
  Forall (fun b => b = false) (mask l) ->
  LightCurveM.time l = _time l /\
  LightCurveM.flux l = _detrended_flux l /\
  LightCurveM.rawflux l = _flux l /\
  LightCurveM.flux_err l = _flux_err l.
Proof.
  intros (Ht & Hf & He & Hd) Hall.
  assert (Hneg : Forall (fun b => b = true) (map negb (mask l))).
  { clear -Hall. induction Hall as [|b m Hb _ IH]; constructor;
      [subst; reflexivity | exact IH]. }
  unfold LightCurveM.time, LightCurveM.flux, LightCurveM.rawflux,
    LightCurveM.flux_err.
  rewrite !select_all by (rewrite ?length_map; congruence || exact Hneg).
  repeat split.
Qed.


Lemma absolute_nonneg (x : np_float) : Np.lt (Np.absolute x) (Finite 0) = false.
Proof.
  destruct x as [r| | |]; try reflexivity. cbn [Np.absolute Np.lt].
  apply Rltb_false. pose proof (Rabs_pos r). lra.
Qed.

(** X22.  The walkers of [fit_emcee] start at coordinates that are never
    negative, one walker per row of noise; a row of zero noise starts its
    walker at the absolute values of the starting vector, not at the
    vector itself. *)
Theorem walkers_nonnegative (noise : list ndarray) (p0 : ndarray) :
  length (fit_emcee_walkers noise p0) = length noise /\
  (forall row x, In row (fit_emcee_walkers noise p0) -> In x row ->
                 Np.lt x (Finite 0) = false) /\
  (forall row, In row noise -> length row = length p0 ->
               Forall (fun z => z = Finite 0) row ->
               In (map Np.absolute p0) (fit_emcee_walkers noise p0)).
Proof.
  unfold fit_emcee_walkers. split; [apply length_map|]. split.
  - intros row x Hrow Hx. apply in_map_iff in Hrow as [r [<- _]].
    apply in_map_iff in Hx as [y [<- _]]. apply absolute_nonneg.
  - intros row Hin Hlen Hzero. apply in_map_iff. exists row.
    split; [|exact Hin]. f_equal.
    clear Hin. revert p0 Hlen.
    induction Hzero as [|z row Hz _ IH]; intros [|y p0] Hlen;
      try discriminate; [reflexivity|].
    subst z. cbn [zip_with map]. rewrite add_zero_l. f_equal. apply IH.
    simpl in Hlen. lia.
Qed.

Section PriorLength.
Variable G : R.

Lemma lnprior_loop_short (p : ndarray) (pls : list Planet) :
  forall (i0 : nat) (tot : np_float) (k : nat),
  (k < length pls)%nat ->
  (forall j, (j < k)%nat -> candidate_accepted G p (i0 + j) = true) ->
  (5 + (i0 + k) * 6 <= length p < 11 + (i0 + k) * 6)%nat ->
  lnprior_loop G p (param p 1) pls i0 tot = Raise ValueError.
Proof.
  induction pls as [|pl pls IH]; intros i0 tot k Hk Hok Hlen;
    [simpl in Hk; lia|].
  destruct k as [|k].
  - cbn [lnprior_loop].
    assert (Hs : (length (slice (5 + i0 * 6) (11 + i0 * 6) p) < 6)%nat).
    { unfold slice. rewrite length_firstn, length_skipn. lia. }
    destruct (slice _ _ p) as [|a [|b [|c [|d [|e [|f [|? ?]]]]]]];
      try reflexivity; simpl in Hs; lia.
  - simpl length in Hk.
    pose proof (Hok 0%nat ltac:(lia)) as H0.
    replace (i0 + 0)%nat with i0 in H0 by lia.
    unfold candidate_accepted, impact_arg in H0. cbv zeta in H0.
    repeat (apply andb_true_iff in H0; destruct H0 as [H0 ?]).
    cbn [lnprior_loop]. rewrite slice_candidate by lia. cbv beta iota.
    fold (scaled_semi_major_axis G (param p 1) (param p (5 + i0 * 6))).
    repeat match goal with
           | H : negb ?c = true |- _ => apply negb_true_iff in H; rewrite H
           end.
    match goal with
    | H : _ && _ = true |- _ => rewrite H
    end.
    cbn [negb].
    destruct (_period pl) as [prior_p prior_p_err].
    destruct (_epoch pl) as [prior_ep prior_ep_err].
    apply (IH (S i0) _ k); [lia | | lia].
    intros j Hj. replace (S i0 + j)%nat with (i0 + S j)%nat by lia.
    apply Hok. lia.
Qed.

(** X11.  When the star block and the candidates before [k] pass the tests
    of [lnprior] and the vector ends within the six entries of candidate
    [k], [lnprior] raises [ValueError]. *)
Theorem lnprior_short_candidate (self : TransitModel) (p : ndarray) (k : nat) :
  star_invalid p = false ->
  (k < LightCurveM.n_planets (lc self))%nat ->
  (forall j, (j < k)%nat -> candidate_accepted G p j = true) ->
  (5 + 6 * k <= length p < 11 + 6 * k)%nat ->
  lnprior G self p = Raise ValueError.
Proof.
  intros Hstar Hk Hok Hlen. unfold lnprior.
  rewrite firstn5_params by lia.
  unfold star_invalid in Hstar. cbv zeta in Hstar.
  apply orb_false_iff in Hstar as [Hstar Hdil].
  apply orb_false_iff in Hstar as [Hstar Hrho].
  apply orb_false_iff in Hstar as [Hq1 Hq2].
  apply negb_false_iff in Hq1, Hq2, Hdil.
  rewrite Hq1, Hq2, Hrho, Hdil. cbn [andb negb].
  apply (lnprior_loop_short p (planets (lc self)) 0 (Finite 0) k).
  - exact Hk.
  - intros j Hj. apply Hok. exact Hj.
  - lia.
Qed.
End PriorLength.

(** ** Transit numbers, repeated runs, candidate numbers *)


(** X24.  Running the sampler again does not renew the samples: once a
    first access after a run has returned a table, the access after any
    further run returns that same table and derives nothing. *)
Theorem refit_returns_first_table (self0 self1 : TransitModel)
    (run run' : Sampler) (df : DataFrame) (w w1 w2 : world) :
  samples (fit_emcee self0 run) w = (Ok (Some df, self1), w1) ->
  samples (fit_emcee self1 run') w2 = (Ok (Some df, fit_emcee self1 run'), w2).
Proof.
  intros H.
  assert (Hdf : _samples self1 = Some df).
  { unfold samples in H. cbn [fit_emcee sampler _samples] in H.
    rewrite bool_decide_eq_true_2 in H by (eexists; reflexivity).
    cbn [negb andb] in H.
    destruct (_samples self0) as [d|] eqn:Hd.
    - unfold ret in H. injection H as -> <- _. exact Hd.
    - unfold bind, ret in H.
      destruct (_make_samples _ w) as [[s'|e] w'].
      + injection H as Hs <- _. exact Hs.
      + discriminate H. }
  apply samples_of_cache. exact Hdf.
Qed.

Section CandidateNumbers.
Variable utils_t_folded : np_float -> np_float -> np_float -> np_float.

(** X25.  The methods of [LightCurve] that take a candidate number, [t_folded],
    [t_close], [intransit] and [ith_transit], raise [IndexError] when the
    light curve has no candidate of that number (so do their defaults on a
    light curve without candidates), and otherwise return one entry per
    unmasked observation. *)
Theorem candidate_index_bounds (l : LightCurve) (i : nat) (width : np_float)
    (n : Z) :
  ((LightCurveM.n_planets l <= i)%nat ->
   LightCurveMore.t_folded utils_t_folded l i = Raise IndexError /\
   LightCurveM.t_close utils_t_folded l i width = Raise IndexError /\
   LightCurveMore.intransit utils_t_folded l i width = Raise IndexError /\
   LightCurveMore.ith_transit l n i width = Raise IndexError)
  /\
  ((i < LightCurveM.n_planets l)%nat ->
   exists a b c d,
     LightCurveMore.t_folded utils_t_folded l i = Ok a /\
     LightCurveM.t_close utils_t_folded l i width = Ok b /\
     LightCurveMore.intransit utils_t_folded l i width = Ok c /\
     LightCurveMore.ith_transit l n i width = Ok d /\
     length a = length (LightCurveM.time l) /\
     length b = length (LightCurveM.time l) /\
     length c = length (LightCurveM.time l) /\
     length d = length (LightCurveM.time l)).
Proof.
  unfold LightCurveM.n_planets, LightCurveMore.t_folded, LightCurveM.t_close,
    LightCurveMore.intransit, LightCurveMore.ith_transit.
  split; intros Hi.
  - rewrite (lookup_ge_None_2 (planets l) i) by exact Hi. repeat split.
  - destruct (lookup_lt_is_Some_2 (planets l) i Hi) as [pl ->].
    do 4 eexists. do 4 (split; [reflexivity|]).
    unfold PlanetM.in_transit, PlanetM.t_close, PlanetM.t_folded,
      PlanetMore.ith_transit, LightCurveM.t.
    rewrite !length_map. repeat split.
Qed.
End CandidateNumbers.

(** ** The further properties at the sample data *)

Lemma star_valid_p_star : star_invalid p_star = false.
Proof. unfold star_invalid, param. cbn [nth p_star]. np_eval. reflexivity. Qed.

Lemma star_valid_short : star_invalid (p_star ++ [Finite 3])%list = false.
Proof.
  unfold star_invalid, param. cbn [nth p_star app]. np_eval. reflexivity.
Qed.

Lemma lc0_wf : lc_wf lc0.
Proof. repeat split; reflexivity. Qed.

Lemma save_hdf_taken_path_witness :
  save_hdf null_lc_save_hdf model1 "fit.h5" "koi" false false world_taken
  = (Raise IOError, world_taken).
Proof.
  apply (save_hdf_taken_path null_lc_save_hdf model1
           {[ "/koi/samples" :=
                {| node_frame := [("flux_zp", [NaN])];
                   node_attrs_of := no_attrs |} ]}).
  - reflexivity.
  - eexists. reflexivity.
Defined.

Lemma save_hdf_overwrite_without_samples_witness :
  conflict (files world_taken) "fit.h5" "koi" = true /\
  save_hdf null_lc_save_hdf model1 "fit.h5" "koi" true false world_taken
  = (Raise AttributeError,
     {| files := delete "fit.h5" fs_taken; calls := [] |}).
Proof.
  split; [reflexivity|].
  apply (proj1 (save_hdf_overwrite_without_samples null_lc_save_hdf model1
                  "fit.h5" "koi" false world_taken eq_refl eq_refl eq_refl)).
Defined.


Lemma load_hdf_missing_witness :
  node_at (files world0) "fit.h5" (samples_key "koi") = None /\
  fst (load_hdf toy_lc_load_hdf "fit.h5" "koi" world0) = Raise KeyError.
Proof.
  split; [reflexivity|].
  apply (load_hdf_missing toy_lc_load_hdf "fit.h5" "koi" world0). reflexivity.
Defined.

Lemma load_hdf_restores_samples_only_witness :
  exists loaded,
    load_hdf toy_lc_load_hdf "fit.h5" "koi" world_saved = (Ok loaded, world_saved) /\
    sampler loaded = None /\
    _samples loaded = Some df1 /\
    fst (_make_samples loaded world0) = Raise AttributeError.
Proof.
  assert (H : load_hdf toy_lc_load_hdf "fit.h5" "koi" world_saved
              = (Ok (set_samples (init lc1 (Finite 2) "constant") (Some df1)),
                 world_saved)) by reflexivity.
  destruct (load_hdf_restores_samples_only toy_lc_load_hdf "fit.h5" "koi" _
              world_saved world_saved H) as (Hs & _ & _ & Hmk).
  eexists. split; [exact H|]. split; [exact Hs|]. split; [reflexivity|].
  apply Hmk.
Defined.


Lemma samples_narrow_chain_witness :
  fst (samples (fit_emcee model1 run_narrow) world0) = Raise IndexError.
Proof.
  apply (samples_narrow_chain (fit_emcee model1 run_narrow) run_narrow world0).
  - reflexivity.
  - reflexivity.
  - cbn. lia.
Defined.

Lemma triangle_defaults_are_columns_witness :
  exists df self' w',
    _make_samples (fit_emcee model1 run1) world0 = (Ok self', w') /\
    _samples self' = Some df /\
    (forall name, In name (triangle_default_params 0) -> In name (map fst df)) /\
    (forall par, In par planet_params -> ~ In (column_name par 1) (map fst df)).
Proof.
  destruct (make_samples_value (fit_emcee model1 run1) run1 world0 eq_refl)
    as (df & Hmk & _).
  - cbn. lia.
  - exists df. eexists. eexists. split; [exact Hmk|]. split; [reflexivity|].
    split.
    + apply (proj1 (triangle_defaults_are_columns (fit_emcee model1 run1) run1
                      _ df world0 _ 0%nat eq_refl Hmk eq_refl)).
      cbn. lia.
    + apply (proj1 (proj2 (triangle_defaults_are_columns
                             (fit_emcee model1 run1) run1
                             _ df world0 _ 1%nat eq_refl Hmk eq_refl))).
      cbn. lia.
Defined.

Lemma lnprior_long_vector_witness :
  length p_low = (5 + 6 * LightCurveM.n_planets (lc model1))%nat /\
  lnprior G_cgs model1 (p_low ++ [Finite 7])%list = lnprior G_cgs model1 p_low.
Proof.
  split; [reflexivity|].
  apply (proj2 (lnprior_long_vector G_cgs model1 p_low [Finite 7] eq_refl)).
Defined.

Lemma lnprior_short_vector_witness :
  lnpost G_cgs toy_t_folded toy_lc_eval model1 [Finite 1; Finite 1] world0
  = (Raise ValueError, world0).
Proof.
  apply (proj2 (lnprior_short_vector G_cgs toy_t_folded toy_lc_eval model1
                  [Finite 1; Finite 1] world0 ltac:(simpl; lia))).
Defined.

Lemma lnprior_short_candidate_witness :
  star_invalid (p_star ++ [Finite 3])%list = false /\
  lnprior G_cgs model1 (p_star ++ [Finite 3])%list = Raise ValueError.
Proof.
  split; [exact star_valid_short|].
  apply (lnprior_short_candidate G_cgs model1 (p_star ++ [Finite 3])%list 0).
  - exact star_valid_short.
  - cbn. lia.
  - intros j Hj. lia.
  - simpl. lia.
Defined.

Lemma lnpost_no_candidates_witness :
  lnprior G_cgs model0 p_star = Ok (Finite 0) /\
  lnpost G_cgs toy_t_folded toy_lc_eval model0 p_star world0
  = lnlike toy_t_folded toy_lc_eval model0 p_star world0.
Proof.
  apply (lnpost_no_candidates G_cgs toy_t_folded toy_lc_eval model0 p_star
           world0).
  - reflexivity.
  - simpl. lia.
  - exact star_valid_p_star.
Defined.

Lemma cost_of_rejected_witness :
  cost G_cgs toy_t_folded toy_lc_eval model1 p_bad_q1 world0 = (Ok PInf, world0).
Proof.
  apply (cost_of_rejected G_cgs toy_t_folded toy_lc_eval model1 p_bad_q1
           world0 lnprior_p_bad_q1).
Defined.

Lemma lnlike_propagates_witness :
  lnlike toy_t_folded toy_lc_eval model1 [] world0
  = (Raise IndexError, {| files := ∅; calls := [CallLnlike []] |}).
Proof.
  apply (lnlike_propagates toy_t_folded toy_lc_eval model1 [] IndexError
           world0).
  - discriminate.
  - reflexivity.
Defined.

Lemma lnlike_shape_safe_witness :
  lc_wf (lc model1) /\
  exists like w2,
    lnlike toy_t_folded toy_lc_eval model1 p_low world0 = (Ok like, w2).
Proof.
  split; [exact lc1_wf|].
  pose (w1 := {| files := files world0;
                 calls := calls world0 ++ [CallLnlike p_low] |}).
  pose (v := map (fun _ : np_float => Finite 0.99)
               (select (near_mask toy_t_folded (lc model1) (width model1))
                  (LightCurveM.time (lc model1)))).
  assert (Hev := evaluate_value toy_t_folded toy_lc_eval model1 (Finite 1)
                   (skipn 1 p_low) v w1 eq_refl (length_map _ _)).
  destruct (lnlike_shape_safe toy_t_folded toy_lc_eval model1 p_low _ world0 _
              lc1_wf Hev) as (_ & _ & like & Hlike).
  exists like. eexists. exact Hlike.
Defined.

Lemma evaluate_no_candidates_witness :
  evaluate toy_t_folded toy_lc_eval model0 p_star world0
  = (Ok [Finite 1; Finite 1; Finite 1],
     {| files := ∅;
        calls := [CallLcEval (skipn 1 p_star) [] (Finite 0.02)] |}).
Proof.
  apply (evaluate_no_candidates toy_t_folded toy_lc_eval model0 (Finite 1)
           (skipn 1 p_star) world0); reflexivity.
Defined.

Lemma unmasked_views_aligned_witness :
  length (LightCurveM.time lc1) = 3%nat /\
  length (LightCurveM.flux lc1) = 3%nat /\
  length (LightCurveM.rawflux lc1) = 3%nat /\
  length (LightCurveM.flux_err lc1) = 3%nat /\
  (3 <= length (mask lc1))%nat.
Proof.
  apply (unmasked_views_aligned lc1 lc1_wf).
Defined.

Lemma nothing_masked_witness :
  LightCurveM.time lc0 = _time lc0 /\
  LightCurveM.flux lc0 = _detrended_flux lc0 /\
  LightCurveM.rawflux lc0 = _flux lc0 /\
  LightCurveM.flux_err lc0 = _flux_err lc0.
Proof.
  apply (nothing_masked lc0 lc0_wf). repeat constructor.
Defined.


Lemma walkers_nonnegative_witness :
  In (map Np.absolute p0_signed) (fit_emcee_walkers noise0 p0_signed).
Proof.
  apply (proj2 (proj2 (walkers_nonnegative noise0 p0_signed))
           [Finite 0; Finite 0]).
  - left. reflexivity.
  - reflexivity.
  - repeat constructor.
Defined.


Lemma refit_returns_first_table_witness :
  exists df self1 w1,
    samples (fit_emcee model1 run1) world0 = (Ok (Some df, self1), w1) /\
    samples (fit_emcee self1 run_narrow) w1
    = (Ok (Some df, fit_emcee self1 run_narrow), w1).
Proof.
  destruct (make_samples_value (fit_emcee model1 run1) run1 world0 eq_refl)
    as (df & Hmk & _).
  - cbn. lia.
  - assert (H : samples (fit_emcee model1 run1) world0
                = (Ok (Some df, set_samples (fit_emcee model1 run1) (Some df)),
                   {| files := files world0;
                      calls := calls world0 ++ [CallMakeSamples] |})).
    { rewrite (samples_with_sampler (fit_emcee model1 run1) run1 eq_refl).
      change (_samples (fit_emcee model1 run1)) with (@None DataFrame).
      unfold bind. rewrite Hmk. reflexivity. }
    exists df. eexists. eexists. split; [exact H|].
    exact (refit_returns_first_table model1 _ run1 run_narrow df world0 _ _ H).
Defined.
